(** * A calculator for arithmetic expressions: tokenizer, shunting yard, postfix evaluator

    Shallow embedding of [main.go]: [tokenize], [toPostfix], [evaluatePostfix]
    and [calculate], with the pieces of the Go runtime they call
    ([range] over a string, [strings.Builder.WriteRune], [unicode.IsDigit],
    [unicode.IsSpace], [strings.ContainsRune], [strconv.ParseFloat] and
    [float64] arithmetic). *)

From Stdlib Require Import ZArith List String Ascii Bool Lia.
From Stdlib Require Import Permutation.
From Stdlib Require Import SpecFloat.
Import ListNotations.

Local Open Scope string_scope.
Local Open Scope list_scope.
Local Open Scope Z_scope.

(** ** Go values *)

(** A Go [string] is a sequence of bytes: Rocq's [string]. A [rune] is an
    [int32] code point. *)
Definition rune := Z.

Definition byte_val (b : ascii) : Z := Z.of_N (N_of_ascii b).
Definition byte_of (z : Z) : ascii := ascii_of_N (Z.to_N (z mod 256)).

(** [len(s)] of a string, in bytes. *)
Definition len (s : string) : Z := Z.of_nat (String.length s).

(** [uint32(r)] of an [int32]. *)
Definition uint32 (r : rune) : Z := r mod 2 ^ 32.

(** [float64]: IEEE 754 binary64, 53 bits of precision, exponents below 1024. *)
Definition float64 := spec_float.
Definition prec64 : Z := 53.
Definition emax64 : Z := 1024.

Definition f64_add : float64 -> float64 -> float64 := SFadd prec64 emax64.
Definition f64_sub : float64 -> float64 -> float64 := SFsub prec64 emax64.
Definition f64_mul : float64 -> float64 -> float64 := SFmul prec64 emax64.
Definition f64_div : float64 -> float64 -> float64 := SFdiv prec64 emax64.
(** Go's [==] on [float64]: both zeros are equal, a NaN equals nothing. *)
Definition f64_eq : float64 -> float64 -> bool := SFeqb.
Definition f64_zero : float64 := S754_zero false.
(** The [float64] of an integer (exact for the small ones the examples use). *)
Definition f64_of_Z (n : Z) : float64 := binary_normalize prec64 emax64 n 0 false.

(** ** Errors

    Every error of the program is a message; the constructors keep the
    message's kind and the value formatted into it. *)
Inductive NumErrKind :=
| ErrSyntax   (* strconv.ErrSyntax: "invalid syntax" *)
| ErrRange.   (* strconv.ErrRange: "value out of range" *)

Inductive error :=
| ErrInvalidCharacter (r : rune)          (* "invalid character: %c" *)
| ErrMismatchedParentheses                (* "mismatched parentheses" *)
| ErrNumError (num : string) (k : NumErrKind)
                                          (* strconv.ParseFloat's *NumError *)
| ErrNotEnoughOperands (op : string)      (* "not enough operands for operator %s" *)
| ErrDivisionByZero                       (* "division by zero" *)
| ErrInvalidExpression.                   (* "invalid expression" *)

Inductive result (A : Type) :=
| Ok (a : A)
| Err (e : error).
Arguments Ok {A} a.
Arguments Err {A} e.

Definition bind {A B : Type} (m : result A) (k : A -> result B) : result B :=
  match m with
  | Ok a => k a
  | Err e => Err e
  end.

Notation "x <- m ;; k" := (bind m (fun x => k))
  (at level 61, m at next level, right associativity).

(** ** UTF-8, as package [unicode/utf8] has it *)

Definition RuneError : rune := 0xFFFD.
Definition MaxRune : rune := 0x10FFFF.
Definition MaxLatin1 : rune := 0xFF.
Definition surrogateMin : Z := 0xD800.
Definition surrogateMax : Z := 0xDFFF.
Definition rune1Max : Z := 0x7F.
Definition rune2Max : Z := 0x7FF.
Definition rune3Max : Z := 0xFFFF.
Definition maskx : Z := 0x3F.
Definition mask2 : Z := 0x1F.
Definition mask3 : Z := 0x0F.
Definition mask4 : Z := 0x07.
Definition locb : Z := 0x80.
Definition hicb : Z := 0xBF.

(** The table [first]: [0xF0] for an ASCII byte, [0xF1] for a byte that starts
    no sequence, otherwise the accept range (high nibble) and the size (low
    bits) of the sequence the byte starts. *)
Definition first (b : Z) : Z :=
  if b <? 0x80 then 0xF0
  else if b <? 0xC2 then 0xF1
  else if b <? 0xE0 then 0x02
  else if b =? 0xE0 then 0x13
  else if b <? 0xED then 0x03
  else if b =? 0xED then 0x23
  else if b <? 0xF0 then 0x03
  else if b =? 0xF0 then 0x34
  else if b <? 0xF4 then 0x04
  else if b =? 0xF4 then 0x44
  else 0xF1.

(** The table [acceptRanges]: the bounds of the second byte. *)
Definition acceptRanges (i : Z) : Z * Z :=
  if i =? 0 then (locb, hicb)
  else if i =? 1 then (0xA0, hicb)
  else if i =? 2 then (locb, 0x9F)
  else if i =? 3 then (0x90, hicb)
  else if i =? 4 then (locb, 0x8F)
  else (0, 0).

(** [utf8.DecodeRuneInString]: the first rune of [s] and its width in bytes;
    [(RuneError, 1)] on an invalid sequence, [(RuneError, 0)] on the empty string. *)
Definition DecodeRuneInString (s : string) : rune * nat :=
  match s with
  | EmptyString => (RuneError, 0%nat)
  | String c0 t0 =>
    let s0 := byte_val c0 in
    let x := first s0 in
    if 0xF0 <=? x then
      (if x =? 0xF0 then s0 else RuneError, 1%nat)
    else
      let sz := Z.land x 7 in
      let '(lo, hi) := acceptRanges (Z.shiftr x 4) in
      match t0 with
      | EmptyString => (RuneError, 1%nat)
      | String c1 t1 =>
        let s1 := byte_val c1 in
        if (len s <? sz) || (s1 <? lo) || (hi <? s1) then (RuneError, 1%nat)
        else if sz <=? 2 then
          (Z.lor (Z.shiftl (Z.land s0 mask2) 6) (Z.land s1 maskx), 2%nat)
        else
          match t1 with
          | EmptyString => (RuneError, 1%nat)
          | String c2 t2 =>
            let s2 := byte_val c2 in
            if (s2 <? locb) || (hicb <? s2) then (RuneError, 1%nat)
            else if sz <=? 3 then
              (Z.lor (Z.lor (Z.shiftl (Z.land s0 mask3) 12)
                            (Z.shiftl (Z.land s1 maskx) 6))
                     (Z.land s2 maskx), 3%nat)
            else
              match t2 with
              | EmptyString => (RuneError, 1%nat)
              | String c3 _ =>
                let s3 := byte_val c3 in
                if (s3 <? locb) || (hicb <? s3) then (RuneError, 1%nat)
                else
                  (Z.lor (Z.lor (Z.lor (Z.shiftl (Z.land s0 mask4) 18)
                                       (Z.shiftl (Z.land s1 maskx) 12))
                                (Z.shiftl (Z.land s2 maskx) 6))
                         (Z.land s3 maskx), 4%nat)
              end
          end
      end
  end.

(** [for _, r := range s]: the runes the loop visits, decoded as
    [DecodeRuneInString] does. At every byte the loop is either inside the
    sequence decoded last ([skip] bytes of it are left) or decodes the next
    rune; an invalid sequence yields [RuneError] and the loop advances by one
    byte. *)
Fixpoint range_from (s : string) (skip : nat) : list rune :=
  match s with
  | EmptyString => []
  | String _ t =>
    match skip with
    | S k => range_from t k
    | O => let '(r, size) := DecodeRuneInString s in r :: range_from t (size - 1)
    end
  end.

Definition range_runes (s : string) : list rune := range_from s 0.

(** [utf8.AppendRune] on an empty buffer, which is also the conversion
    [string(r)]: the UTF-8 encoding of [r], that of [RuneError] when [r] is no
    valid code point. *)
Definition EncodeRune (r : rune) : string :=
  let i := uint32 r in
  let b z := byte_of z in
  if i <=? rune1Max then String (b r) EmptyString
  else if i <=? rune2Max then
    String (b (Z.lor 0xC0 (Z.shiftr r 6)))
      (String (b (Z.lor 0x80 (Z.land r maskx))) EmptyString)
  else
    let enc3 r :=
      String (b (Z.lor 0xE0 (Z.shiftr r 12)))
        (String (b (Z.lor 0x80 (Z.land (Z.shiftr r 6) maskx)))
          (String (b (Z.lor 0x80 (Z.land r maskx))) EmptyString)) in
    if (MaxRune <? i) || ((surrogateMin <=? i) && (i <=? surrogateMax)) then enc3 RuneError
    else if i <=? rune3Max then enc3 r
    else
      String (b (Z.lor 0xF0 (Z.shiftr r 18)))
        (String (b (Z.lor 0x80 (Z.land (Z.shiftr r 12) maskx)))
          (String (b (Z.lor 0x80 (Z.land (Z.shiftr r 6) maskx)))
            (String (b (Z.lor 0x80 (Z.land r maskx))) EmptyString))).

(** [strings.ContainsRune(s, r)]: whether [r] is one of the runes of [s]. *)
Definition ContainsRune (s : string) (r : rune) : bool :=
  existsb (Z.eqb r) (range_runes s).

(** A rune written as a character literal. *)
Definition rune_of (c : ascii) : rune := byte_val c.

(** ** Unicode tables

    [unicode.IsDigit] and [unicode.IsSpace] decide the Latin-1 runes in their
    own code and look the others up in the tables [unicode.Digit] and
    [unicode.White_Space] of the toolchain that builds the program. The
    embedding takes the two tables as parameters; the ones below are those of
    Unicode 15.0 (outside Latin-1), to run the program on. *)
Definition in_ranges (ranges : list (Z * Z)) (r : rune) : bool :=
  existsb (fun '(lo, hi) => (lo <=? r) && (r <=? hi)) ranges.

Definition Digit_ranges : list (Z * Z) :=
  [ (0x0660, 0x0669); (0x06F0, 0x06F9); (0x07C0, 0x07C9); (0x0966, 0x096F);
    (0x09E6, 0x09EF); (0x0A66, 0x0A6F); (0x0AE6, 0x0AEF); (0x0B66, 0x0B6F);
    (0x0BE6, 0x0BEF); (0x0C66, 0x0C6F); (0x0CE6, 0x0CEF); (0x0D66, 0x0D6F);
    (0x0DE6, 0x0DEF); (0x0E50, 0x0E59); (0x0ED0, 0x0ED9); (0x0F20, 0x0F29);
    (0x1040, 0x1049); (0x1090, 0x1099); (0x17E0, 0x17E9); (0x1810, 0x1819);
    (0x1946, 0x194F); (0x19D0, 0x19D9); (0x1A80, 0x1A89); (0x1A90, 0x1A99);
    (0x1B50, 0x1B59); (0x1BB0, 0x1BB9); (0x1C40, 0x1C49); (0x1C50, 0x1C59);
    (0xA620, 0xA629); (0xA8D0, 0xA8D9); (0xA900, 0xA909); (0xA9D0, 0xA9D9);
    (0xA9F0, 0xA9F9); (0xAA50, 0xAA59); (0xABF0, 0xABF9); (0xFF10, 0xFF19);
    (0x104A0, 0x104A9); (0x10D30, 0x10D39); (0x11066, 0x1106F);
    (0x110F0, 0x110F9); (0x11136, 0x1113F); (0x111D0, 0x111D9);
    (0x112F0, 0x112F9); (0x11450, 0x11459); (0x114D0, 0x114D9);
    (0x11650, 0x11659); (0x116C0, 0x116C9); (0x11730, 0x11739);
    (0x118E0, 0x118E9); (0x11950, 0x11959); (0x11C50, 0x11C59);
    (0x11D50, 0x11D59); (0x11DA0, 0x11DA9); (0x11F50, 0x11F59);
    (0x16A60, 0x16A69); (0x16AC0, 0x16AC9); (0x16B50, 0x16B59);
    (0x1D7CE, 0x1D7FF); (0x1E140, 0x1E149); (0x1E2F0, 0x1E2F9);
    (0x1E4F0, 0x1E4F9); (0x1E950, 0x1E959); (0x1FBF0, 0x1FBF9) ].

Definition White_Space_ranges : list (Z * Z) :=
  [ (0x1680, 0x1680); (0x2000, 0x200A); (0x2028, 0x2029); (0x202F, 0x202F);
    (0x205F, 0x205F); (0x3000, 0x3000) ].

Definition Digit15 : rune -> bool := in_ranges Digit_ranges.
Definition White_Space15 : rune -> bool := in_ranges White_Space_ranges.

(** ** Tokens *)

Definition NUMBER : Z := 0.
Definition OPERATOR : Z := 1.
Definition LPAREN : Z := 2.
Definition RPAREN : Z := 3.

(** [type Token struct { Type int; Value string }]. *)
Record Token := mkToken { Type_ : Z; Value : string }.

(** ** Decimal texts and [strconv.ParseFloat]

    [tokenize] builds a number's text from digits and decimal points only.
    On a text of ASCII digits and points [strconv.ParseFloat(s, 64)], as
    package [strconv] documents it, reads a mantissa with at most one point
    and at least one digit, rounds it to the nearest [float64] (ties to
    even), and reports a value that rounds to infinity as out of range.
    Texts with any other byte (signs, exponents, hexadecimal, [inf], [nan],
    underscores, digits outside ASCII) are left to a parameter of the
    embedding. *)
Definition is_digit_byte (c : ascii) : bool :=
  (byte_val "0" <=? byte_val c) && (byte_val c <=? byte_val "9").

Definition is_point_byte (c : ascii) : bool := byte_val c =? byte_val ".".

Fixpoint is_decimal_text (s : string) : bool :=
  match s with
  | EmptyString => true
  | String c t => (is_digit_byte c || is_point_byte c) && is_decimal_text t
  end.

(** The scan of [readFloat] over a decimal text: the digits read as an
    integer and the number of digits after the point; [None] on a second
    point, on a foreign byte, or when no digit was seen. *)
Fixpoint readFloat (s : string) (sawdot sawdigits : bool) (mantissa nfrac : Z)
  : option (Z * Z) :=
  match s with
  | EmptyString => if sawdigits then Some (mantissa, nfrac) else None
  | String c t =>
    if is_point_byte c then
      if sawdot then None else readFloat t true sawdigits mantissa nfrac
    else if is_digit_byte c then
      readFloat t sawdot true
        (mantissa * 10 + (byte_val c - byte_val "0"))
        (if sawdot then nfrac + 1 else nfrac)
    else None
  end.

(** The [float64] nearest to [m / 10 ^ k], for [0 <= m] and [0 <= k]. *)
Definition f64_of_decimal (m k : Z) : float64 :=
  match m with
  | Z0 => S754_zero false
  | _ =>
    let '(q, e, l) := SFdiv_core_binary prec64 emax64 m 0 (10 ^ k) 0 in
    binary_round_aux prec64 emax64 false q e l
  end.

Definition is_infinity (f : float64) : bool :=
  match f with
  | S754_infinity _ => true
  | _ => false
  end.

Definition ParseDecimal (s : string) : result float64 :=
  match readFloat s false false 0 0 with
  | None => Err (ErrNumError s ErrSyntax)
  | Some (m, k) =>
    let f := f64_of_decimal m k in
    if is_infinity f then Err (ErrNumError s ErrRange) else Ok f
  end.

(** An instance for the texts that are not decimal: every one is refused.
    [tokenize] builds no such text from ASCII input. *)
Definition ParseOther_refuse (s : string) : result float64 :=
  Err (ErrNumError s ErrSyntax).

Notation "' pat <- m ;; k" :=
  (bind m (fun x => match x with pat => k end))
  (at level 61, pat pattern, m at next level, right associativity).

(** [precedence := map[string]int{...}] of [toPostfix], as its entries. *)
Definition precedence_map : list (string * Z) :=
  [ ("+", 1); ("-", 1); ("*", 2); ("/", 2) ].

(** [m[key]] on a [map[string]int]: the zero value when the key is absent. *)
Fixpoint map_index (m : list (string * Z)) (key : string) : Z :=
  match m with
  | [] => 0
  | (k, v) :: m' => if String.eqb k key then v else map_index m' key
  end.

Definition precedence (key : string) : Z := map_index precedence_map key.

(** The specification's invariant of a number's text, in its words: a
    non-empty run of digits and at most one decimal point. *)
Fixpoint count_points (s : string) : Z :=
  match s with
  | EmptyString => 0
  | String c t => (if is_point_byte c then 1 else 0) + count_points t
  end.

Definition spec_number_text (s : string) : bool :=
  (0 <? len s) && is_decimal_text s && (count_points s <=? 1).

(** Balanced parentheses, in the usual sense: reading left to right no right
    parenthesis comes without an open left one, and none is left open. *)
Fixpoint balanced_from (depth : nat) (tokens : list Token) : bool :=
  match tokens with
  | [] => Nat.eqb depth 0
  | token :: tokens' =>
    if Type_ token =? LPAREN then balanced_from (S depth) tokens'
    else if Type_ token =? RPAREN then
      match depth with
      | O => false
      | S depth' => balanced_from depth' tokens'
      end
    else balanced_from depth tokens'
  end.

Definition balanced (tokens : list Token) : bool := balanced_from 0 tokens.

(** The left parentheses on an operator stack. *)
Fixpoint count_lparen (stack : list Token) : nat :=
  match stack with
  | [] => O
  | top :: stack' =>
    if Type_ top =? LPAREN then S (count_lparen stack') else count_lparen stack'
  end.

Definition is_number_or_operator (t : Token) : Prop :=
  Type_ t = NUMBER \/ Type_ t = OPERATOR.

Definition is_operator_or_lparen (t : Token) : Prop :=
  Type_ t = OPERATOR \/ Type_ t = LPAREN.

Definition num (text : string) : Token := mkToken NUMBER text.
Definition op (text : string) : Token := mkToken OPERATOR text.
Definition lparen : Token := mkToken LPAREN "(".
Definition rparen : Token := mkToken RPAREN ")".

Section Calculator.

(** [unicode.Digit] and [unicode.White_Space] outside Latin-1, and
    [strconv.ParseFloat(s, 64)] on the texts that are not decimal. *)
Variable DigitTable : rune -> bool.
Variable SpaceTable : rune -> bool.
Variable ParseOther : string -> result float64.

(** [unicode.IsDigit]. *)
Definition IsDigit (r : rune) : bool :=
  if r <=? MaxLatin1 then (rune_of "0" <=? r) && (r <=? rune_of "9")
  else DigitTable r.

(** [unicode.IsSpace]: tab, line feed, vertical tab, form feed, carriage
    return, space, NEL and NBSP in Latin-1, the table beyond. *)
Definition IsSpace (r : rune) : bool :=
  if uint32 r <=? MaxLatin1 then
    (r =? 0x09) || (r =? 0x0A) || (r =? 0x0B) || (r =? 0x0C) || (r =? 0x0D)
    || (r =? 0x20) || (r =? 0x85) || (r =? 0xA0)
  else SpaceTable r.

(** [strconv.ParseFloat(s, 64)]. *)
Definition ParseFloat (s : string) : result float64 :=
  if is_decimal_text s then ParseDecimal s else ParseOther s.

(** ** The tokenizer *)

(** The block [if numBuilder.Len() > 0 { tokens = append(tokens,
    Token{NUMBER, numBuilder.String()}); numBuilder.Reset() }]. *)
Definition flush (tokens : list Token) (numBuilder : string)
  : list Token * string :=
  if 0 <? len numBuilder
  then (tokens ++ [mkToken NUMBER numBuilder], EmptyString)
  else (tokens, numBuilder).

(** One iteration of the loop of [tokenize]: the [switch] on the rune [r]. *)
Definition tokenize_rune (r : rune) (tokens : list Token) (numBuilder : string)
  : result (list Token * string) :=
  if IsDigit r || (r =? rune_of ".") then
    Ok (tokens, (numBuilder ++ EncodeRune r)%string)
  else if ContainsRune "+-*/" r then
    let '(tokens, numBuilder) := flush tokens numBuilder in
    Ok (tokens ++ [mkToken OPERATOR (EncodeRune r)], numBuilder)
  else if r =? rune_of "(" then
    let '(tokens, numBuilder) := flush tokens numBuilder in
    Ok (tokens ++ [mkToken LPAREN (EncodeRune r)], numBuilder)
  else if r =? rune_of ")" then
    let '(tokens, numBuilder) := flush tokens numBuilder in
    Ok (tokens ++ [mkToken RPAREN (EncodeRune r)], numBuilder)
  else if IsSpace r then
    Ok (flush tokens numBuilder)
  else
    Err (ErrInvalidCharacter r).

Fixpoint tokenize_loop (rs : list rune) (tokens : list Token) (numBuilder : string)
  : result (list Token * string) :=
  match rs with
  | [] => Ok (tokens, numBuilder)
  | r :: rs' =>
    '(tokens', numBuilder') <- tokenize_rune r tokens numBuilder ;;
    tokenize_loop rs' tokens' numBuilder'
  end.

(** The loop and the last flush, on the runes of the input. *)
Definition tokenize_runes (rs : list rune) : result (list Token) :=
  '(tokens, numBuilder) <- tokenize_loop rs [] EmptyString ;;
  if 0 <? len numBuilder
  then Ok (tokens ++ [mkToken NUMBER numBuilder])
  else Ok tokens.

Definition tokenize (input : string) : result (list Token) :=
  tokenize_runes (range_runes input).

(** ** The shunting yard

    The operator stack is a list whose head is the top of the stack (the last
    element of the slice); the output grows at its end. *)

(** The loop of the [OPERATOR] case: pop to the output while the top is an
    operator whose precedence is at least that of [token]. *)
Fixpoint pop_operators (token : Token) (stack output : list Token)
  : list Token * list Token :=
  match stack with
  | [] => (stack, output)
  | top :: stack' =>
    if (Type_ top =? OPERATOR)
       && (precedence (Value token) <=? precedence (Value top))
    then pop_operators token stack' (output ++ [top])
    else (stack, output)
  end.

(** The loop of the [RPAREN] case: pop to the output until the top is a left
    parenthesis or the stack is empty. *)
Fixpoint pop_to_lparen (stack output : list Token) : list Token * list Token :=
  match stack with
  | [] => (stack, output)
  | top :: stack' =>
    if negb (Type_ top =? LPAREN)
    then pop_to_lparen stack' (output ++ [top])
    else (stack, output)
  end.

(** One iteration of the first loop of [toPostfix]: the [switch] on the
    token's type, which has no default case. *)
Definition toPostfix_token (token : Token) (stack output : list Token)
  : result (list Token * list Token) :=
  if Type_ token =? NUMBER then
    Ok (stack, output ++ [token])
  else if Type_ token =? OPERATOR then
    let '(stack, output) := pop_operators token stack output in
    Ok (token :: stack, output)
  else if Type_ token =? LPAREN then
    Ok (token :: stack, output)
  else if Type_ token =? RPAREN then
    let '(stack, output) := pop_to_lparen stack output in
    match stack with
    | [] => Err ErrMismatchedParentheses
    | top :: stack' =>
      if negb (Type_ top =? LPAREN) then Err ErrMismatchedParentheses
      else Ok (stack', output)
    end
  else
    Ok (stack, output).

Fixpoint toPostfix_loop (tokens stack output : list Token)
  : result (list Token * list Token) :=
  match tokens with
  | [] => Ok (stack, output)
  | token :: tokens' =>
    '(stack', output') <- toPostfix_token token stack output ;;
    toPostfix_loop tokens' stack' output'
  end.

(** The last loop of [toPostfix]: pop what is left, and fail on a left
    parenthesis. *)
Fixpoint pop_all (stack output : list Token) : result (list Token) :=
  match stack with
  | [] => Ok output
  | top :: stack' =>
    if Type_ top =? LPAREN then Err ErrMismatchedParentheses
    else pop_all stack' (output ++ [top])
  end.

Definition toPostfix (tokens : list Token) : result (list Token) :=
  '(stack, output) <- toPostfix_loop tokens [] [] ;;
  pop_all stack output.

(** ** The evaluator

    The operand stack is a list whose head is the top of the stack. *)

(** The inner [switch token.Value] of the [OPERATOR] case, on the operands
    [a] and [b] and the stack below them; it has no default case, so another
    operator text leaves the two operands popped and pushes nothing. *)
Definition apply_operator (op : string) (a b : float64) (stack : list float64)
  : result (list float64) :=
  if String.eqb op "+" then Ok (f64_add a b :: stack)
  else if String.eqb op "-" then Ok (f64_sub a b :: stack)
  else if String.eqb op "*" then Ok (f64_mul a b :: stack)
  else if String.eqb op "/" then
    if f64_eq b f64_zero then Err ErrDivisionByZero
    else Ok (f64_div a b :: stack)
  else Ok stack.

(** One iteration of the loop of [evaluatePostfix]. *)
Definition evaluate_token (token : Token) (stack : list float64)
  : result (list float64) :=
  if Type_ token =? NUMBER then
    num <- ParseFloat (Value token) ;;
    Ok (num :: stack)
  else if Type_ token =? OPERATOR then
    match stack with
    | b :: a :: stack' => apply_operator (Value token) a b stack'
    | _ => Err (ErrNotEnoughOperands (Value token))
    end
  else
    Ok stack.

Fixpoint evaluate_loop (tokens : list Token) (stack : list float64)
  : result (list float64) :=
  match tokens with
  | [] => Ok stack
  | token :: tokens' =>
    stack' <- evaluate_token token stack ;;
    evaluate_loop tokens' stack'
  end.

Definition evaluatePostfix (tokens : list Token) : result float64 :=
  stack <- evaluate_loop tokens [] ;;
  match stack with
  | [x] => Ok x
  | _ => Err ErrInvalidExpression
  end.

(** ** The pipeline *)

Definition calculate (input : string) : result float64 :=
  tokens <- tokenize input ;;
  postfix <- toPostfix tokens ;;
  evaluatePostfix postfix.

(** ** Properties named by the specification *)

(** A number's text is made of these runes. *)
Definition number_rune (r : rune) : bool := IsDigit r || (r =? rune_of ".").

(** The characters the specification lists as valid: a digit, a decimal
    point, one of [+ - * /], a parenthesis, or Unicode whitespace. *)
Definition valid_rune (r : rune) : bool :=
  IsDigit r || (r =? rune_of ".") || ContainsRune "+-*/" r
  || (r =? rune_of "(") || (r =? rune_of ")") || IsSpace r.

(** The text that [WriteRune] builds from a run of runes. *)
Fixpoint encode_runes (rs : list rune) : string :=
  match rs with
  | [] => EmptyString
  | r :: rs' => (EncodeRune r ++ encode_runes rs')%string
  end.

Definition ends_with_number (rs : list rune) : bool :=
  match rev rs with
  | [] => false
  | r :: _ => number_rune r
  end.

Definition starts_with_number (rs : list rune) : bool :=
  match rs with
  | [] => false
  | r :: _ => number_rune r
  end.

(** The converter after its first loop has reached [stack] and [output]. *)
Definition toPostfix_from (tokens stack output : list Token) : result (list Token) :=
  '(stack', output') <- toPostfix_loop tokens stack output ;;
  pop_all stack' output'.

(** A text that [WriteRune] built from number runes only. *)
Definition number_text (s : string) : Prop :=
  exists rs, forallb number_rune rs = true /\ s = encode_runes rs.

(** What [tokenize] guarantees of a token: a number's text is not empty and
    is made of number runes. *)
Definition token_ok (t : Token) : Prop :=
  Type_ t = NUMBER -> 0 < len (Value t) /\ number_text (Value t).

(** ** Expressions

    The infix expressions of the calculator, by precedence level: a factor is
    a number or a parenthesized expression, a term is a chain of factors
    joined by [*] and [/], an expression a chain of terms joined by [+] and
    [-]; both chains lean to the left. *)
Inductive addop := Plus | Minus.
Inductive mulop := Times | Divide.

Inductive factor :=
| FNum (text : string)
| FParen (e : expr)
with term :=
| TFactor (f : factor)
| TMul (t : term) (o : mulop) (f : factor)
with expr :=
| ETerm (t : term)
| EAdd (e : expr) (o : addop) (t : term).

Scheme factor_mut := Induction for factor Sort Prop
  with term_mut := Induction for term Sort Prop
  with expr_mut := Induction for expr Sort Prop.
Combined Scheme expression_mutind from factor_mut, term_mut, expr_mut.

Definition addop_text (o : addop) : string :=
  match o with Plus => "+" | Minus => "-" end.

Definition mulop_text (o : mulop) : string :=
  match o with Times => "*" | Divide => "/" end.

(** The tokens of an expression, as they are written. *)
Fixpoint infix_factor (f : factor) : list Token :=
  match f with
  | FNum text => [num text]
  | FParen e => lparen :: infix_expr e ++ [rparen]
  end
with infix_term (t : term) : list Token :=
  match t with
  | TFactor f => infix_factor f
  | TMul t o f => infix_term t ++ op (mulop_text o) :: infix_factor f
  end
with infix_expr (e : expr) : list Token :=
  match e with
  | ETerm t => infix_term t
  | EAdd e o t => infix_expr e ++ op (addop_text o) :: infix_term t
  end.

(** The postfix form: both operands, then the operator. *)
Fixpoint postfix_factor (f : factor) : list Token :=
  match f with
  | FNum text => [num text]
  | FParen e => postfix_expr e
  end
with postfix_term (t : term) : list Token :=
  match t with
  | TFactor f => postfix_factor f
  | TMul t o f => postfix_term t ++ postfix_factor f ++ [op (mulop_text o)]
  end
with postfix_expr (e : expr) : list Token :=
  match e with
  | ETerm t => postfix_term t
  | EAdd e o t => postfix_expr e ++ postfix_term t ++ [op (addop_text o)]
  end.

(** While the converter reads on, the last operator of a chain waits on the
    stack: [pending_*] is what an expression leaves there (top first),
    [emitted_*] what it has put in the output by then. *)
Definition pending_term (t : term) : list Token :=
  match t with
  | TFactor _ => []
  | TMul _ o _ => [op (mulop_text o)]
  end.

Definition emitted_term (t : term) : list Token :=
  match t with
  | TFactor f => postfix_factor f
  | TMul t o f => postfix_term t ++ postfix_factor f
  end.

Definition pending_expr (e : expr) : list Token :=
  match e with
  | ETerm t => pending_term t
  | EAdd _ o t => pending_term t ++ [op (addop_text o)]
  end.

Definition emitted_expr (e : expr) : list Token :=
  match e with
  | ETerm t => emitted_term t
  | EAdd e o t => postfix_expr e ++ emitted_term t
  end.

(** A stack on which no operator is on top: empty, or under a parenthesis. *)
Definition no_operator_on_top (stack : list Token) : Prop :=
  match stack with
  | [] => True
  | top :: _ => Type_ top <> OPERATOR
  end.

(** A stack that a [*] or [/] pops nothing from. *)
Definition no_product_on_top (stack : list Token) : Prop :=
  match stack with
  | [] => True
  | top :: _ => Type_ top <> OPERATOR \/ precedence (Value top) < 2
  end.

(** The value of an expression, operands from left to right: a number is
    what [ParseFloat] makes of its text, a division by zero is an error. *)
Definition eval_addop (o : addop) (a b : float64) : float64 :=
  match o with
  | Plus => f64_add a b
  | Minus => f64_sub a b
  end.

Definition eval_mulop (o : mulop) (a b : float64) : result float64 :=
  match o with
  | Times => Ok (f64_mul a b)
  | Divide => if f64_eq b f64_zero then Err ErrDivisionByZero else Ok (f64_div a b)
  end.

Fixpoint eval_factor (f : factor) : result float64 :=
  match f with
  | FNum text => ParseFloat text
  | FParen e => eval_expr e
  end
with eval_term (t : term) : result float64 :=
  match t with
  | TFactor f => eval_factor f
  | TMul t o f =>
    a <- eval_term t ;;
    b <- eval_factor f ;;
    eval_mulop o a b
  end
with eval_expr (e : expr) : result float64 :=
  match e with
  | ETerm t => eval_term t
  | EAdd e o t =>
    a <- eval_expr e ;;
    b <- eval_term t ;;
    Ok (eval_addop o a b)
  end.


(** ** Writing tokens

    A token as a user may type it: a number whose text is a non-empty run of
    ASCII digits and points, one of the four operators, or a parenthesis. *)
Definition written_token (t : Token) : Prop :=
  (Type_ t = NUMBER /\ 0 < len (Value t) /\ is_decimal_text (Value t) = true)
  \/ (Type_ t = OPERATOR /\ In (Value t) ["+"; "-"; "*"; "/"])
  \/ t = lparen
  \/ t = rparen.

(** The tokens written one after the other, a blank after each. *)
Fixpoint write_tokens (tokens : list Token) : string :=
  match tokens with
  | [] => EmptyString
  | t :: tokens' => (Value t ++ String " " (write_tokens tokens'))%string
  end.

(** The numbers of an expression are written in decimal. *)
Definition decimal_numbers (e : expr) : Prop :=
  forall text, In (num text) (infix_expr e) ->
               0 < len text /\ is_decimal_text text = true.


(** ** Tokens and runes *)

(** The runes that end up in a token. *)
Definition token_rune (r : rune) : bool :=
  number_rune r || ContainsRune "+-*/" r || (r =? rune_of "(") || (r =? rune_of ")").

(** The runes that only separate: whitespace that is no number rune. *)
Definition blank_rune (r : rune) : bool := negb (IsDigit r) && IsSpace r.

(** The token that the [switch] of [tokenize] emits for a rune that is an
    operator or a parenthesis. *)
Definition punctuation_token (r : rune) : option Token :=
  if number_rune r then None
  else if ContainsRune "+-*/" r then Some (mkToken OPERATOR (EncodeRune r))
  else if r =? rune_of "(" then Some (mkToken LPAREN (EncodeRune r))
  else if r =? rune_of ")" then Some (mkToken RPAREN (EncodeRune r))
  else None.

(** The texts of the tokens, one after the other. *)
Fixpoint token_values (tokens : list Token) : string :=
  match tokens with
  | [] => EmptyString
  | t :: tokens' => (Value t ++ token_values tokens')%string
  end.

(** The shapes of the tokens that [tokenize] makes. *)
Definition tokenized_token (t : Token) : Prop :=
  (Type_ t = NUMBER /\ 0 < len (Value t) /\ number_text (Value t))
  \/ (Type_ t = OPERATOR /\ In (Value t) ["+"; "-"; "*"; "/"])
  \/ t = lparen
  \/ t = rparen.


(** ** Kinds of tokens, as tests *)

Definition is_number (t : Token) : bool := Type_ t =? NUMBER.
Definition is_operator (t : Token) : bool := Type_ t =? OPERATOR.
Definition number_or_operator (t : Token) : bool := is_number t || is_operator t.

(** A token whose type is one of the four constants. *)
Definition known_type (t : Token) : bool :=
  (Type_ t =? NUMBER) || (Type_ t =? OPERATOR)
  || (Type_ t =? LPAREN) || (Type_ t =? RPAREN).

(** An operator token whose text is one of the four that the evaluator's
    inner [switch] knows. *)
Definition known_operator (t : Token) : Prop :=
  Type_ t = OPERATOR -> In (Value t) ["+"; "-"; "*"; "/"].


(** Two expressions to run the program on: [2 + 3 * 4] and [5 / 0]. *)
Definition sample_sum : expr :=
  EAdd (ETerm (TFactor (FNum "2"))) Plus
       (TMul (TFactor (FNum "3")) Times (FNum "4")).

Definition sample_quotient : expr :=
  ETerm (TMul (TFactor (FNum "5")) Divide (FNum "0")).


(** A number token whose text is made of ASCII digits and points. *)
Definition decimal_token (t : Token) : Prop :=
  Type_ t = NUMBER -> is_decimal_text (Value t) = true.

(** The errors that the loop of [evaluatePostfix] returns on decimal numbers
    and known operators. *)
Definition evaluation_error (err : error) : Prop :=
  (exists text k, err = ErrNumError text k)
  \/ (exists o, In o ["+"; "-"; "*"; "/"] /\ err = ErrNotEnoughOperands o)
  \/ err = ErrDivisionByZero.


(** ** The map [precedence], in any order

    Go fixes no order on the entries of a map. The converter with the map
    held as any list of entries, to state that only lookups are made of it:
    [toPostfix_in precedence_map] is [toPostfix]. *)
Fixpoint pop_operators_in (m : list (string * Z)) (token : Token)
         (stack output : list Token) : list Token * list Token :=
  match stack with
  | [] => (stack, output)
  | top :: stack' =>
    if (Type_ top =? OPERATOR)
       && (map_index m (Value token) <=? map_index m (Value top))
    then pop_operators_in m token stack' (output ++ [top])
    else (stack, output)
  end.

Definition toPostfix_token_in (m : list (string * Z)) (token : Token)
           (stack output : list Token) : result (list Token * list Token) :=
  if Type_ token =? NUMBER then
    Ok (stack, output ++ [token])
  else if Type_ token =? OPERATOR then
    let '(stack, output) := pop_operators_in m token stack output in
    Ok (token :: stack, output)
  else if Type_ token =? LPAREN then
    Ok (token :: stack, output)
  else if Type_ token =? RPAREN then
    let '(stack, output) := pop_to_lparen stack output in
    match stack with
    | [] => Err ErrMismatchedParentheses
    | top :: stack' =>
      if negb (Type_ top =? LPAREN) then Err ErrMismatchedParentheses
      else Ok (stack', output)
    end
  else
    Ok (stack, output).

Fixpoint toPostfix_loop_in (m : list (string * Z)) (tokens stack output : list Token)
  : result (list Token * list Token) :=
  match tokens with
  | [] => Ok (stack, output)
  | token :: tokens' =>
    '(stack', output') <- toPostfix_token_in m token stack output ;;
    toPostfix_loop_in m tokens' stack' output'
  end.

Definition toPostfix_in (m : list (string * Z)) (tokens : list Token)
  : result (list Token) :=
  '(stack, output) <- toPostfix_loop_in m tokens [] [] ;;
  pop_all stack output.

Definition calculate_in (m : list (string * Z)) (input : string) : result float64 :=
  tokens <- tokenize input ;;
  postfix <- toPostfix_in m tokens ;;
  evaluatePostfix postfix.

(** One more expression to run the program on: [2 * 3 + 4]. *)
Definition sample_product_sum : expr :=
  EAdd (ETerm (TMul (TFactor (FNum "2")) Times (FNum "3"))) Plus
       (TFactor (FNum "4")).

(** * Theorems *)

(** ** The runtime model on sample values *)

Example range_ascii : range_runes "2 + a" = [0x32; 0x20; 0x2B; 0x20; 0x61].
Proof. reflexivity. Qed.

(** The bytes C3 A9 are U+00E9, and E2 82 AC are U+20AC. *)
Example range_multibyte :
  range_runes (String (byte_of 0xC3) (String (byte_of 0xA9)
                (String (byte_of 0xE2) (String (byte_of 0x82)
                  (String (byte_of 0xAC) EmptyString)))))
  = [0xE9; 0x20AC].
Proof. vm_compute. reflexivity. Qed.

(** A byte that starts no sequence, and a sequence cut short, each yield
    [RuneError] and cost one byte. *)
Example range_invalid :
  range_runes (String (byte_of 0xFF) (String (byte_of 0xE2)
                (String (byte_of 0x82) "1")))
  = [RuneError; RuneError; RuneError; 0x31].
Proof. vm_compute. reflexivity. Qed.

Example EncodeRune_samples :
  EncodeRune 0x2B = "+"
  /\ EncodeRune 0x20AC
     = String (byte_of 0xE2) (String (byte_of 0x82)
         (String (byte_of 0xAC) EmptyString))
  /\ EncodeRune 0xD800 = EncodeRune RuneError.
Proof. repeat split; vm_compute; reflexivity. Qed.

(** 0.1 is 0x1.999999999999ap-4; a lone point, and two points, are no
    literal; 1e309 is out of range. *)
Example ParseDecimal_samples :
  ParseDecimal "0.1" = Ok (S754_finite false 0x1999999999999a (-56))
  /\ ParseDecimal "1." = Ok (f64_of_Z 1)
  /\ ParseDecimal ".5" = Ok (S754_finite false 0x10000000000000 (-53))
  /\ ParseDecimal "." = Err (ErrNumError "." ErrSyntax)
  /\ ParseDecimal "1.2.3" = Err (ErrNumError "1.2.3" ErrSyntax)
  /\ ParseDecimal "0" = Ok f64_zero.
Proof. repeat split; vm_compute; reflexivity. Qed.

Example calculate_decimal : calculate "1.5 * 2" = Ok (f64_of_Z 3).
Proof. vm_compute. reflexivity. Qed.

Example calculate_two_points :
  calculate "1.2.3" = Err (ErrNumError "1.2.3" ErrSyntax).
Proof. vm_compute. reflexivity. Qed.

Example calculate_unary_minus : calculate "-5" = Err (ErrNotEnoughOperands "-").
Proof. vm_compute. reflexivity. Qed.


(** ** Precedence and associativity in the converter *)

Lemma pop_operators_pop (token top : Token) (stack output : list Token) :
  Type_ top = OPERATOR ->
  precedence (Value token) <= precedence (Value top) ->
  pop_operators token (top :: stack) output
  = pop_operators token stack (output ++ [top]).
Proof.
  intros Htop Hprec. simpl.
  rewrite Htop, Z.eqb_refl.
  apply Z.leb_le in Hprec. rewrite Hprec. reflexivity.
Qed.

Lemma pop_operators_keep (token top : Token) (stack output : list Token) :
  precedence (Value top) < precedence (Value token) ->
  pop_operators token (top :: stack) output = (top :: stack, output).
Proof.
  intros Hprec. simpl.
  apply Z.leb_gt in Hprec. rewrite Hprec, andb_false_r. reflexivity.
Qed.

Lemma toPostfix_tighter_second (a b c o1 o2 : string) :
  precedence o1 < precedence o2 ->
  toPostfix [num a; op o1; num b; op o2; num c]
  = Ok [num a; num b; num c; op o2; op o1].
Proof.
  intros H. unfold toPostfix. cbn -[precedence].
  apply Z.leb_gt in H. rewrite H. reflexivity.
Qed.

Lemma toPostfix_left_first (a b c o1 o2 : string) :
  precedence o2 <= precedence o1 ->
  toPostfix [num a; op o1; num b; op o2; num c]
  = Ok [num a; num b; op o1; num c; op o2].
Proof.
  intros H. unfold toPostfix. cbn -[precedence].
  apply Z.leb_le in H. rewrite H. reflexivity.
Qed.

Lemma toPostfix_grouped (a b c o1 o2 : string) :
  toPostfix [lparen; num a; op o1; num b; rparen; op o2; num c]
  = Ok [num a; num b; op o1; num c; op o2].
Proof. reflexivity. Qed.

(** C2: all four operators associate to the left: the converter pops a
    stacked operator whose precedence is greater than or equal to that of the
    incoming one, so ["8 - 3 - 2"] is 3 and ["16 / 4 / 2"] is 2. *)
Theorem calculate_left_associative :
  calculate "8 - 3 - 2" = Ok (f64_of_Z 3)
  /\ calculate "16 / 4 / 2" = Ok (f64_of_Z 2)
  /\ (forall (token top : Token) (stack output : list Token),
        Type_ top = OPERATOR ->
        precedence (Value token) <= precedence (Value top) ->
        pop_operators token (top :: stack) output
        = pop_operators token stack (output ++ [top]))
  /\ (forall (token top : Token) (stack output : list Token),
        precedence (Value top) < precedence (Value token) ->
        pop_operators token (top :: stack) output = (top :: stack, output))
  /\ (forall a b c o1 o2 : string,
        In o1 ["+"; "-"; "*"; "/"] -> In o2 ["+"; "-"; "*"; "/"] ->
        precedence o1 = precedence o2 ->
        toPostfix [num a; op o1; num b; op o2; num c]
        = Ok [num a; num b; op o1; num c; op o2]).
Proof.
  split; [vm_compute; reflexivity|].
  split; [vm_compute; reflexivity|].
  split; [exact pop_operators_pop|].
  split; [exact pop_operators_keep|].
  intros a b c o1 o2 _ _ Heq. apply toPostfix_left_first. lia.
Qed.

(** ** The evaluator's failures *)

Lemma evaluate_loop_app (xs ys : list Token) (stack : list float64) :
  evaluate_loop (xs ++ ys) stack
  = (stack' <- evaluate_loop xs stack ;; evaluate_loop ys stack').
Proof.
  revert stack. induction xs as [|x xs IH]; intros stack; simpl.
  - reflexivity.
  - destruct (evaluate_token x stack) as [stack'|e]; simpl.
    + apply IH.
    + reflexivity.
Qed.

Lemma evaluatePostfix_fails_at (pre post : list Token) (token : Token)
      (stack : list float64) (e : error) :
  evaluate_loop pre [] = Ok stack ->
  evaluate_token token stack = Err e ->
  evaluatePostfix (pre ++ token :: post) = Err e.
Proof.
  intros Hpre Htok. unfold evaluatePostfix.
  rewrite evaluate_loop_app, Hpre. simpl. rewrite Htok. reflexivity.
Qed.

Lemma apply_operator_division_by_zero (a b : float64) (stack : list float64) :
  f64_eq b f64_zero = true ->
  apply_operator "/" a b stack = Err ErrDivisionByZero.
Proof.
  intros Hb. unfold apply_operator. simpl. rewrite Hb. reflexivity.
Qed.

(** C3: in every postfix evaluation, a [/] applied to a right operand (the
    value popped first) that equals zero fails with the division-by-zero
    error, whatever came before and whatever follows; ["5 / 0"] fails so. *)
Theorem division_by_zero (pre post : list Token) (token : Token)
        (a b : float64) (stack : list float64) :
  Type_ token = OPERATOR ->
  Value token = "/" ->
  evaluate_loop pre [] = Ok (b :: a :: stack) ->
  f64_eq b f64_zero = true ->
  evaluate_token token (b :: a :: stack) = Err ErrDivisionByZero
  /\ evaluatePostfix (pre ++ token :: post) = Err ErrDivisionByZero
  /\ calculate "5 / 0" = Err ErrDivisionByZero.
Proof.
  intros Hty Hval Hpre Hb.
  assert (Htok : evaluate_token token (b :: a :: stack) = Err ErrDivisionByZero).
  { unfold evaluate_token. rewrite Hty. simpl. rewrite Hval.
    apply apply_operator_division_by_zero. exact Hb. }
  split; [exact Htok|].
  split; [exact (evaluatePostfix_fails_at pre post token _ _ Hpre Htok)|].
  vm_compute. reflexivity.
Qed.

Lemma evaluate_token_not_enough (token : Token) (stack : list float64) :
  Type_ token = OPERATOR ->
  (List.length stack < 2)%nat ->
  evaluate_token token stack = Err (ErrNotEnoughOperands (Value token)).
Proof.
  intros Hty Hlen. unfold evaluate_token. rewrite Hty. simpl.
  destruct stack as [|b [|a stack]]; simpl in Hlen; try reflexivity; lia.
Qed.

Lemma evaluatePostfix_end (tokens : list Token) (stack : list float64) :
  evaluate_loop tokens [] = Ok stack ->
  evaluatePostfix tokens
  = match stack with
    | [x] => Ok x
    | _ => Err ErrInvalidExpression
    end.
Proof. intros H. unfold evaluatePostfix. rewrite H. reflexivity. Qed.

(** C6, as the code has it: an operator met with fewer than two values on the
    operand stack fails with the not-enough-operands error; when all tokens
    are consumed, a stack that does not hold exactly one value fails with the
    invalid-expression error. So ["1 2"] and [""] fail with the
    invalid-expression error and ["+ 1"] fails for lack of operands, while
    ["+ 1 2"] is converted to the postfix [1 2 +] and evaluates to 3. *)
Theorem operand_count_errors (pre post : list Token) (token : Token)
        (stack : list float64) :
  evaluate_loop pre [] = Ok stack ->
  (Type_ token = OPERATOR -> (List.length stack < 2)%nat ->
   evaluatePostfix (pre ++ token :: post)
   = Err (ErrNotEnoughOperands (Value token)))
  /\ (List.length stack <> 1%nat -> evaluatePostfix pre = Err ErrInvalidExpression)
  /\ (forall x, stack = [x] -> evaluatePostfix pre = Ok x)
  /\ calculate "1 2" = Err ErrInvalidExpression
  /\ calculate "" = Err ErrInvalidExpression
  /\ calculate "+ 1" = Err (ErrNotEnoughOperands "+")
  /\ toPostfix [op "+"; num "1"; num "2"] = Ok [num "1"; num "2"; op "+"]
  /\ calculate "+ 1 2" = Ok (f64_of_Z 3).
Proof.
  intros Hpre.
  split.
  { intros Hty Hlen.
    apply (evaluatePostfix_fails_at pre post token stack); [exact Hpre|].
    apply evaluate_token_not_enough; assumption. }
  split.
  { intros Hlen. rewrite (evaluatePostfix_end pre stack Hpre).
    destruct stack as [|x [|y stack]]; simpl in Hlen; try reflexivity; lia. }
  split.
  { intros x Hx. rewrite (evaluatePostfix_end pre stack Hpre), Hx. reflexivity. }
  repeat split; vm_compute; reflexivity.
Qed.

(** ** What the converter's loops do to the stack and to the output *)

Lemma Forall_snoc {A : Type} (P : A -> Prop) (l : list A) (x : A) :
  Forall P l -> P x -> Forall P (l ++ [x]).
Proof. intros Hl Hx. apply Forall_app. split; [exact Hl|]. constructor; [exact Hx|constructor]. Qed.

Lemma pop_operators_spec (token : Token) (stack output stack' output' : list Token) :
  pop_operators token stack output = (stack', output') ->
  count_lparen stack' = count_lparen stack
  /\ (Forall is_operator_or_lparen stack -> Forall is_operator_or_lparen stack')
  /\ (Forall is_number_or_operator output -> Forall is_number_or_operator output').
Proof.
  revert output. induction stack as [|top stack IH]; intros output H; simpl in H.
  - inversion H; subst. auto.
  - destruct (Type_ top =? OPERATOR) eqn:Htop; simpl in H.
    + destruct (precedence (Value token) <=? precedence (Value top)).
      * apply Z.eqb_eq in Htop.
        destruct (IH _ H) as (Hc & Hs & Ho).
        split; [|split].
        -- rewrite Hc. simpl. rewrite Htop. reflexivity.
        -- intros Hst. apply Hs. inversion Hst; assumption.
        -- intros Hout. apply Ho. apply Forall_snoc; [exact Hout|].
           right. exact Htop.
      * inversion H; subst. auto.
    + inversion H; subst. auto.
Qed.

Lemma pop_to_lparen_spec (stack output stack' output' : list Token) :
  pop_to_lparen stack output = (stack', output') ->
  match stack' with
  | [] => count_lparen stack = O
  | top :: stack'' =>
    Type_ top = LPAREN /\ count_lparen stack = S (count_lparen stack'')
  end
  /\ (Forall is_operator_or_lparen stack -> Forall is_operator_or_lparen stack')
  /\ (Forall is_operator_or_lparen stack ->
      Forall is_number_or_operator output -> Forall is_number_or_operator output').
Proof.
  revert output. induction stack as [|top stack IH]; intros output H; simpl in H.
  - inversion H; subst. simpl. auto.
  - destruct (Type_ top =? LPAREN) eqn:Htop; simpl in H.
    + inversion H; subst. apply Z.eqb_eq in Htop.
      simpl. rewrite Htop. simpl. auto.
    + destruct (IH _ H) as (Hc & Hs & Ho).
      split; [|split].
      * simpl. rewrite Htop. exact Hc.
      * intros Hst. apply Hs. inversion Hst; assumption.
      * intros Hst Hout. inversion Hst as [|? ? Hhd Htl]; subst.
        apply Ho; [exact Htl|]. apply Forall_snoc; [exact Hout|].
        destruct Hhd as [Hop|Hlp]; [right; exact Hop|].
        rewrite Hlp in Htop. discriminate.
Qed.

Lemma pop_all_spec (stack output : list Token) :
  match pop_all stack output with
  | Ok output' =>
    count_lparen stack = O
    /\ (Forall is_operator_or_lparen stack ->
        Forall is_number_or_operator output -> Forall is_number_or_operator output')
  | Err e => e = ErrMismatchedParentheses /\ count_lparen stack <> O
  end.
Proof.
  revert output. induction stack as [|top stack IH]; intros output; simpl.
  - auto.
  - destruct (Type_ top =? LPAREN) eqn:Htop.
    + split; [reflexivity|discriminate].
    + specialize (IH (output ++ [top])).
      destruct (pop_all stack (output ++ [top])) as [output'|e].
      * destruct IH as (Hc & Ho). split; [exact Hc|].
        intros Hst Hout. inversion Hst as [|? ? Hhd Htl]; subst.
        apply Ho; [exact Htl|]. apply Forall_snoc; [exact Hout|].
        destruct Hhd as [Hop|Hlp]; [right; exact Hop|].
        rewrite Hlp in Htop. discriminate.
      * exact IH.
Qed.

(** One step of the converter: its effect on the number of open parentheses
    and on the kinds of the tokens it holds. *)
Lemma toPostfix_token_spec (token : Token) (stack output : list Token) :
  match toPostfix_token token stack output with
  | Ok (stack', output') =>
    (if Type_ token =? LPAREN then count_lparen stack' = S (count_lparen stack)
     else if Type_ token =? RPAREN
          then count_lparen stack = S (count_lparen stack')
          else count_lparen stack' = count_lparen stack)
    /\ (Forall is_operator_or_lparen stack -> Forall is_operator_or_lparen stack')
    /\ (Forall is_operator_or_lparen stack ->
        Forall is_number_or_operator output -> Forall is_number_or_operator output')
  | Err e =>
    e = ErrMismatchedParentheses /\ Type_ token = RPAREN /\ count_lparen stack = O
  end.
Proof.
  unfold toPostfix_token.
  destruct (Z.eqb_spec (Type_ token) NUMBER) as [Hn|Hn].
  { rewrite Hn. simpl. split; [reflexivity|]. split; [auto|].
    intros _ Hout. apply Forall_snoc; [exact Hout|]. left. exact Hn. }
  destruct (Z.eqb_spec (Type_ token) OPERATOR) as [Ho|Ho].
  { destruct (pop_operators token stack output) as [stack' output'] eqn:Hpop.
    destruct (pop_operators_spec _ _ _ _ _ Hpop) as (Hc & Hs & Hout).
    rewrite Ho. simpl. split; [|split].
    - rewrite Ho. simpl. exact Hc.
    - intros Hst. constructor; [left; exact Ho|auto].
    - intros _. exact Hout. }
  destruct (Z.eqb_spec (Type_ token) LPAREN) as [Hl|Hl].
  { split; [|split].
    - simpl. rewrite Hl. reflexivity.
    - intros Hst. constructor; [right; exact Hl|exact Hst].
    - auto. }
  destruct (Z.eqb_spec (Type_ token) RPAREN) as [Hr|Hr].
  { destruct (pop_to_lparen stack output) as [stack' output'] eqn:Hpop.
    destruct (pop_to_lparen_spec _ _ _ _ Hpop) as (Hc & Hs & Hout).
    destruct stack' as [|top stack''].
    - auto.
    - destruct Hc as (Htop & Hc). rewrite Htop. simpl.
      split; [exact Hc|]. split; [|exact Hout].
      intros Hst. specialize (Hs Hst). inversion Hs; assumption. }
  auto.
Qed.

Lemma toPostfix_from_spec (tokens stack output : list Token) :
  match toPostfix_from tokens stack output with
  | Ok output' =>
    balanced_from (count_lparen stack) tokens = true
    /\ (Forall is_operator_or_lparen stack ->
        Forall is_number_or_operator output -> Forall is_number_or_operator output')
  | Err e =>
    e = ErrMismatchedParentheses
    /\ balanced_from (count_lparen stack) tokens = false
  end.
Proof.
  unfold toPostfix_from.
  revert stack output. induction tokens as [|token tokens IH]; intros stack output; simpl.
  - pose proof (pop_all_spec stack output) as H.
    destruct (pop_all stack output) as [output'|e].
    + destruct H as (Hc & Ho). rewrite Hc. auto.
    + destruct H as (He & Hc). split; [exact He|].
      destruct (count_lparen stack); [congruence|reflexivity].
  - pose proof (toPostfix_token_spec token stack output) as H.
    destruct (toPostfix_token token stack output) as [[stack' output']|e]; simpl.
    + destruct H as (Hc & Hs & Ho).
      specialize (IH stack' output').
      assert (Hb : balanced_from (count_lparen stack) (token :: tokens)
                   = balanced_from (count_lparen stack') tokens).
      { simpl. destruct (Type_ token =? LPAREN).
        - rewrite Hc. reflexivity.
        - destruct (Type_ token =? RPAREN); rewrite Hc; reflexivity. }
      simpl in Hb. rewrite Hb.
      destruct (toPostfix_loop tokens stack' output') as [[s o]|e]; simpl in *.
      * destruct (pop_all s o).
        -- destruct IH as (IHb & IHo). split; [exact IHb|]. auto.
        -- exact IH.
      * exact IH.
    + destruct H as (He & Hr & Hc). split; [exact He|].
      rewrite Hr, Hc. reflexivity.
Qed.

(** ** Mismatched parentheses *)

(** C5: [toPostfix] fails, with the mismatched-parentheses error, exactly when
    the parentheses of the tokens are not balanced, and it fails in no other
    way: a right parenthesis met while the stack holds no left parenthesis
    fails, and a left parenthesis left on the stack at the end fails. Both
    ["(1 + 2"] and ["1 + 2)"] fail so. *)
Theorem mismatched_parentheses (tokens : list Token) :
  (toPostfix tokens = Err ErrMismatchedParentheses <-> balanced tokens = false)
  /\ (forall e, toPostfix tokens = Err e -> e = ErrMismatchedParentheses)
  /\ (forall (token : Token) (stack output : list Token),
        Type_ token = RPAREN -> count_lparen stack = O ->
        toPostfix_token token stack output = Err ErrMismatchedParentheses)
  /\ (forall stack output : list Token,
        count_lparen stack <> O ->
        pop_all stack output = Err ErrMismatchedParentheses)
  /\ calculate "(1 + 2" = Err ErrMismatchedParentheses
  /\ calculate "1 + 2)" = Err ErrMismatchedParentheses.
Proof.
  pose proof (toPostfix_from_spec tokens [] []) as H.
  change (toPostfix_from tokens [] []) with (toPostfix tokens) in H.
  change (balanced_from (count_lparen []) tokens) with (balanced tokens) in H.
  split; [|split; [|split; [|split; [|split]]]].
  - destruct (toPostfix tokens) as [out|e].
    + destruct H as (Hb & _). rewrite Hb. split; discriminate.
    + destruct H as (He & Hb). subst e. split; auto.
  - intros e He. rewrite He in H. apply H.
  - intros token stack output Hr Hc.
    pose proof (toPostfix_token_spec token stack output) as Ht.
    destruct (toPostfix_token token stack output) as [[stack' output']|e].
    + destruct Ht as (Hcount & _). rewrite Hr in Hcount. simpl in Hcount.
      rewrite Hc in Hcount. discriminate.
    + destruct Ht as (He & _). rewrite He. reflexivity.
  - intros stack output Hc.
    pose proof (pop_all_spec stack output) as Hp.
    destruct (pop_all stack output) as [output'|e].
    + destruct Hp as (Hz & _). contradiction.
    + destruct Hp as (He & _). rewrite He. reflexivity.
  - vm_compute. reflexivity.
  - vm_compute. reflexivity.
Qed.

(** ** The postfix sequence *)

(** C10: when [toPostfix] succeeds, its result holds only number and operator
    tokens (no parenthesis of either kind), so each of them meets a case of
    the evaluator's [switch]. *)
Theorem toPostfix_only_numbers_and_operators (tokens postfix : list Token) :
  toPostfix tokens = Ok postfix ->
  Forall is_number_or_operator postfix
  /\ (forall t, In t postfix -> Type_ t <> LPAREN /\ Type_ t <> RPAREN).
Proof.
  intros H.
  pose proof (toPostfix_from_spec tokens [] []) as Hs.
  change (toPostfix_from tokens [] []) with (toPostfix tokens) in Hs.
  rewrite H in Hs. destruct Hs as (_ & Hall).
  assert (Hf : Forall is_number_or_operator postfix)
    by (apply Hall; constructor).
  split; [exact Hf|].
  intros t Ht. rewrite Forall_forall in Hf.
  destruct (Hf t Ht) as [Hn|Ho]; rewrite ?Hn, ?Ho; split; discriminate.
Qed.

(** ** The tokenizer's loop *)

Lemma string_app_assoc (a b c : string) :
  ((a ++ b) ++ c)%string = (a ++ (b ++ c))%string.
Proof. induction a as [|x a IH]; simpl; [reflexivity|rewrite IH; reflexivity]. Qed.

Lemma string_app_nil_r (a : string) : (a ++ "")%string = a.
Proof. induction a as [|x a IH]; simpl; [reflexivity|rewrite IH; reflexivity]. Qed.

Lemma encode_runes_app (xs ys : list rune) :
  encode_runes (xs ++ ys) = (encode_runes xs ++ encode_runes ys)%string.
Proof.
  induction xs as [|x xs IH]; simpl; [reflexivity|].
  rewrite IH, string_app_assoc. reflexivity.
Qed.

Lemma len_empty (s : string) : (0 <? len s) = false -> s = EmptyString.
Proof.
  destruct s; [reflexivity|]. unfold len. simpl. intros H.
  apply Z.ltb_ge in H. lia.
Qed.

Lemma tokenize_loop_app (xs ys : list rune) (tokens : list Token) (numBuilder : string) :
  tokenize_loop (xs ++ ys) tokens numBuilder
  = ('(tokens', numBuilder') <- tokenize_loop xs tokens numBuilder ;;
     tokenize_loop ys tokens' numBuilder').
Proof.
  revert tokens numBuilder. induction xs as [|x xs IH]; intros tokens numBuilder; simpl.
  - reflexivity.
  - destruct (tokenize_rune x tokens numBuilder) as [[tokens' numBuilder']|e]; simpl.
    + apply IH.
    + reflexivity.
Qed.

Lemma number_text_empty : number_text EmptyString.
Proof. exists []. split; reflexivity. Qed.

Lemma flush_ok (tokens : list Token) (numBuilder : string) :
  Forall token_ok tokens -> number_text numBuilder ->
  Forall token_ok (fst (flush tokens numBuilder))
  /\ snd (flush tokens numBuilder) = EmptyString.
Proof.
  intros Ht Hn. unfold flush.
  destruct (0 <? len numBuilder) eqn:Hlen; simpl.
  - split; [|reflexivity]. apply Forall_snoc; [exact Ht|].
    intros _. simpl. apply Z.ltb_lt in Hlen. split; assumption.
  - split; [exact Ht|]. apply len_empty. exact Hlen.
Qed.

Lemma token_ok_other (ty : Z) (v : string) :
  ty <> NUMBER -> token_ok (mkToken ty v).
Proof. intros Hne Hty. simpl in Hty. contradiction. Qed.

Lemma tokenize_rune_ok (r : rune) (tokens tokens' : list Token)
      (numBuilder numBuilder' : string) :
  Forall token_ok tokens -> number_text numBuilder ->
  tokenize_rune r tokens numBuilder = Ok (tokens', numBuilder') ->
  Forall token_ok tokens' /\ number_text numBuilder'.
Proof.
  intros Ht Hn. unfold tokenize_rune.
  destruct (flush_ok tokens numBuilder Ht Hn) as (Hft & Hfn).
  destruct (flush tokens numBuilder) as [ftokens fnum]. simpl in Hft, Hfn. subst fnum.
  destruct (IsDigit r || (r =? rune_of ".")) eqn:Hnum.
  { intros H. inversion H; subst. split; [exact Ht|].
    destruct Hn as (rs & Hrs & Heq). exists (rs ++ [r]). split.
    - rewrite forallb_app, Hrs. simpl. unfold number_rune.
      rewrite Hnum. reflexivity.
    - rewrite encode_runes_app, Heq. simpl. rewrite string_app_nil_r. reflexivity. }
  destruct (ContainsRune "+-*/" r).
  { intros H. inversion H; subst. split; [|apply number_text_empty].
    apply Forall_snoc; [exact Hft|]. apply token_ok_other. discriminate. }
  destruct (r =? rune_of "(").
  { intros H. inversion H; subst. split; [|apply number_text_empty].
    apply Forall_snoc; [exact Hft|]. apply token_ok_other. discriminate. }
  destruct (r =? rune_of ")").
  { intros H. inversion H; subst. split; [|apply number_text_empty].
    apply Forall_snoc; [exact Hft|]. apply token_ok_other. discriminate. }
  destruct (IsSpace r).
  { intros H. inversion H; subst. split; [exact Hft|apply number_text_empty]. }
  discriminate.
Qed.

Lemma tokenize_loop_ok (rs : list rune) (tokens tokens' : list Token)
      (numBuilder numBuilder' : string) :
  Forall token_ok tokens -> number_text numBuilder ->
  tokenize_loop rs tokens numBuilder = Ok (tokens', numBuilder') ->
  Forall token_ok tokens' /\ number_text numBuilder'.
Proof.
  revert tokens numBuilder. induction rs as [|r rs IH]; intros tokens numBuilder Ht Hn H; simpl in H.
  - inversion H; subst. split; assumption.
  - destruct (tokenize_rune r tokens numBuilder) as [[t1 n1]|e] eqn:Hstep; simpl in H.
    + destruct (tokenize_rune_ok _ _ _ _ _ Ht Hn Hstep) as (Ht1 & Hn1).
      exact (IH _ _ Ht1 Hn1 H).
    + discriminate.
Qed.

Lemma tokenize_runes_ok (rs : list rune) (tokens : list Token) :
  tokenize_runes rs = Ok tokens -> Forall token_ok tokens.
Proof.
  unfold tokenize_runes. intros H.
  destruct (tokenize_loop rs [] EmptyString) as [[t n]|e] eqn:Hloop; simpl in H;
    [|discriminate].
  destruct (tokenize_loop_ok _ _ _ _ _ (Forall_nil _) number_text_empty Hloop)
    as (Ht & Hn).
  pose proof (flush_ok t n Ht Hn) as (Hf & _). unfold flush in Hf.
  destruct (0 <? len n); simpl in Hf; inversion H; subst; exact Hf.
Qed.

(** ** Number tokens *)

(** C4, as the code has it: every number token of a successful run of
    [tokenize] has a text that is not empty and is the encoding of a run of
    digits (in the sense of [unicode.IsDigit]) and decimal points, in any
    number; whether the text is a numeric literal is decided when it is
    parsed. *)
Theorem tokenize_number_texts (input : string) (tokens : list Token) (t : Token) :
  tokenize input = Ok tokens ->
  In t tokens ->
  Type_ t = NUMBER ->
  0 < len (Value t)
  /\ exists rs : list rune,
       rs <> []
       /\ forallb number_rune rs = true
       /\ Value t = encode_runes rs.
Proof.
  intros Htok Hin Hty.
  pose proof (tokenize_runes_ok _ _ Htok) as Hall.
  rewrite Forall_forall in Hall.
  destruct (Hall t Hin Hty) as (Hlen & rs & Hrs & Heq).
  split; [exact Hlen|].
  exists rs. split; [|split; assumption].
  intros ->. simpl in Heq. rewrite Heq in Hlen. unfold len in Hlen. simpl in Hlen. lia.
Qed.

(** ** Invalid characters *)

Lemma tokenize_rune_invalid (r : rune) (tokens : list Token) (numBuilder : string) :
  valid_rune r = false ->
  tokenize_rune r tokens numBuilder = Err (ErrInvalidCharacter r).
Proof.
  unfold valid_rune, tokenize_rune. intros H.
  apply orb_false_iff in H. destruct H as (H & Hspace).
  apply orb_false_iff in H. destruct H as (H & Hright).
  apply orb_false_iff in H. destruct H as (H & Hleft).
  apply orb_false_iff in H. destruct H as (Hnum & Hop).
  rewrite Hnum, Hop, Hleft, Hright, Hspace. reflexivity.
Qed.

Lemma tokenize_rune_valid (r : rune) (tokens : list Token) (numBuilder : string) :
  valid_rune r = true ->
  exists st, tokenize_rune r tokens numBuilder = Ok st.
Proof.
  unfold valid_rune, tokenize_rune. intros H.
  destruct (flush tokens numBuilder) as [ft fn].
  destruct (IsDigit r || (r =? rune_of ".")); [eexists; reflexivity|].
  destruct (ContainsRune "+-*/" r); [eexists; reflexivity|].
  destruct (r =? rune_of "("); [eexists; reflexivity|].
  destruct (r =? rune_of ")"); [eexists; reflexivity|].
  destruct (IsSpace r); [eexists; reflexivity|].
  discriminate.
Qed.

Lemma tokenize_loop_valid (rs : list rune) (tokens : list Token) (numBuilder : string) :
  forallb valid_rune rs = true ->
  exists st, tokenize_loop rs tokens numBuilder = Ok st.
Proof.
  revert tokens numBuilder. induction rs as [|r rs IH]; intros tokens numBuilder H; simpl.
  - eexists; reflexivity.
  - simpl in H. apply andb_true_iff in H. destruct H as (Hr & Hrs).
    destruct (tokenize_rune_valid r tokens numBuilder Hr) as ([t n] & Hst).
    rewrite Hst. simpl. apply IH. exact Hrs.
Qed.

Lemma tokenize_runes_invalid (pre post : list rune) (c : rune) :
  forallb valid_rune pre = true ->
  valid_rune c = false ->
  tokenize_runes (pre ++ c :: post) = Err (ErrInvalidCharacter c).
Proof.
  intros Hpre Hc. unfold tokenize_runes.
  rewrite tokenize_loop_app.
  destruct (tokenize_loop_valid pre [] EmptyString Hpre) as ([t n] & Hst).
  rewrite Hst. simpl. rewrite (tokenize_rune_invalid c t n Hc). reflexivity.
Qed.

Lemma first_invalid (rs : list rune) :
  (exists r, In r rs /\ valid_rune r = false) ->
  exists pre c post,
    rs = pre ++ c :: post /\ forallb valid_rune pre = true /\ valid_rune c = false.
Proof.
  induction rs as [|x rs IH]; intros (r & Hin & Hr).
  - destruct Hin.
  - destruct (valid_rune x) eqn:Hx.
    + destruct Hin as [->|Hin]; [congruence|].
      destruct IH as (pre & c & post & Heq & Hpre & Hc); [exists r; auto|].
      exists (x :: pre), c, post. simpl. rewrite Heq, Hx, Hpre. auto.
    + exists [], x, rs. auto.
Qed.

(** C7: an input holding a character that is not a digit, a decimal point,
    one of [+ - * /], a parenthesis or Unicode whitespace makes [tokenize]
    fail with the invalid-character error that carries the first such
    character, and [calculate] returns that error; ["2 + a"] fails with the
    error that carries [a]. *)
Theorem invalid_character (input : string) :
  (exists r, In r (range_runes input) /\ valid_rune r = false) ->
  (exists pre c post,
     range_runes input = pre ++ c :: post
     /\ forallb valid_rune pre = true
     /\ valid_rune c = false
     /\ tokenize input = Err (ErrInvalidCharacter c)
     /\ calculate input = Err (ErrInvalidCharacter c))
  /\ calculate "2 + a" = Err (ErrInvalidCharacter (rune_of "a")).
Proof.
  intros H. split; [|vm_compute; reflexivity].
  destruct (first_invalid _ H) as (pre & c & post & Heq & Hpre & Hc).
  exists pre, c, post.
  assert (Htok : tokenize input = Err (ErrInvalidCharacter c)).
  { unfold tokenize. rewrite Heq. apply tokenize_runes_invalid; assumption. }
  repeat split; try assumption.
  unfold calculate. rewrite Htok. reflexivity.
Qed.

(** ** Whitespace *)

Lemma operator_runes :
  range_runes "+-*/" = [rune_of "+"; rune_of "-"; rune_of "*"; rune_of "/"].
Proof. vm_compute. reflexivity. Qed.

Lemma IsSpace_not_syntax (r : rune) :
  IsSpace r = true ->
  (r =? rune_of ".") = false
  /\ ContainsRune "+-*/" r = false
  /\ (r =? rune_of "(") = false
  /\ (r =? rune_of ")") = false.
Proof.
  intros Hsp. unfold ContainsRune. rewrite operator_runes. simpl.
  repeat split;
    repeat match goal with
    | |- _ || _ = false => apply orb_false_iff; split
    | |- (r =? ?k) = false =>
      destruct (Z.eqb_spec r k) as [->|]; [vm_compute in Hsp; discriminate|reflexivity]
    | |- false = false => reflexivity
    end.
Qed.

Lemma whitespace_flushes (r : rune) (tokens : list Token) (numBuilder : string) :
  IsSpace r = true -> IsDigit r = false ->
  tokenize_rune r tokens numBuilder = Ok (flush tokens numBuilder).
Proof.
  intros Hsp Hd. destruct (IsSpace_not_syntax r Hsp) as (Hp & Hop & Hl & Hr).
  unfold tokenize_rune. rewrite Hd, Hp, Hop, Hl, Hr, Hsp. reflexivity.
Qed.

Lemma flush_snd (tokens : list Token) (numBuilder : string) :
  snd (flush tokens numBuilder) = EmptyString.
Proof.
  unfold flush. destruct (0 <? len numBuilder) eqn:Hlen; simpl.
  - reflexivity.
  - apply len_empty. exact Hlen.
Qed.

Lemma flush_flushed (tokens ftokens : list Token) (numBuilder fnum : string) :
  flush tokens numBuilder = (ftokens, fnum) ->
  flush ftokens fnum = (ftokens, fnum).
Proof.
  intros H. pose proof (flush_snd tokens numBuilder) as Hs.
  rewrite H in Hs. simpl in Hs. subst fnum. reflexivity.
Qed.

(** A rune that belongs to no number treats a flushed state as it treats the
    state before the flush. *)
Lemma tokenize_rune_after_flush (c : rune) (tokens ftokens : list Token)
      (numBuilder fnum : string) :
  number_rune c = false ->
  flush tokens numBuilder = (ftokens, fnum) ->
  tokenize_rune c ftokens fnum = tokenize_rune c tokens numBuilder.
Proof.
  intros Hc Hf. unfold number_rune in Hc. unfold tokenize_rune.
  rewrite Hc, Hf, (flush_flushed _ _ _ _ Hf). reflexivity.
Qed.

Lemma tokenize_rune_empties (c : rune) (tokens tokens' : list Token)
      (numBuilder numBuilder' : string) :
  number_rune c = false ->
  tokenize_rune c tokens numBuilder = Ok (tokens', numBuilder') ->
  numBuilder' = EmptyString.
Proof.
  intros Hc. unfold number_rune in Hc. unfold tokenize_rune. rewrite Hc.
  pose proof (flush_snd tokens numBuilder) as Hs.
  destruct (flush tokens numBuilder) as [ft fn]. simpl in Hs. subst fn.
  destruct (ContainsRune "+-*/" c); [intros H; inversion H; reflexivity|].
  destruct (c =? rune_of "("); [intros H; inversion H; reflexivity|].
  destruct (c =? rune_of ")"); [intros H; inversion H; reflexivity|].
  destruct (IsSpace c); [intros H; inversion H; reflexivity|].
  discriminate.
Qed.

Lemma tokenize_loop_empties (pre : list rune) (tokens : list Token) (numBuilder : string) :
  ends_with_number pre = false ->
  tokenize_loop pre [] EmptyString = Ok (tokens, numBuilder) ->
  numBuilder = EmptyString.
Proof.
  unfold ends_with_number. intros Hend Hloop.
  destruct (rev pre) as [|c l] eqn:Hrev.
  - apply (f_equal (@rev rune)) in Hrev. rewrite rev_involutive in Hrev.
    subst pre. simpl in Hloop. inversion Hloop. reflexivity.
  - apply (f_equal (@rev rune)) in Hrev. rewrite rev_involutive in Hrev.
    simpl in Hrev. subst pre. rewrite tokenize_loop_app in Hloop.
    destruct (tokenize_loop (rev l) [] EmptyString) as [[t n]|e]; simpl in Hloop;
      [|discriminate].
    destruct (tokenize_rune c t n) as [[t' n']|e] eqn:Hstep; simpl in Hloop;
      [|discriminate].
    inversion Hloop; subst.
    exact (tokenize_rune_empties _ _ _ _ _ Hend Hstep).
Qed.

(** A blank between two tokens changes nothing: unless it separates two
    number runes, removing it leaves the token sequence as it was. *)
Lemma tokenize_runes_skip_space (pre post : list rune) (sp : rune) :
  IsSpace sp = true -> IsDigit sp = false ->
  ends_with_number pre && starts_with_number post = false ->
  tokenize_runes (pre ++ sp :: post) = tokenize_runes (pre ++ post).
Proof.
  intros Hsp Hd Hsep. unfold tokenize_runes.
  rewrite !tokenize_loop_app.
  destruct (tokenize_loop pre [] EmptyString) as [[t n]|e] eqn:Hpre; simpl;
    [|reflexivity].
  rewrite (whitespace_flushes sp t n Hsp Hd). simpl.
  destruct (flush t n) as [ft fn] eqn:Hf.
  apply andb_false_iff in Hsep. destruct Hsep as [Hend|Hstart].
  - pose proof (tokenize_loop_empties _ _ _ Hend Hpre) as Hn. subst n.
    unfold flush in Hf. simpl in Hf. inversion Hf; subst. reflexivity.
  - destruct post as [|c post]; simpl.
    + unfold flush in Hf. destruct (0 <? len n) eqn:Hlen; inversion Hf; subst.
      * reflexivity.
      * rewrite Hlen. reflexivity.
    + simpl in Hstart. rewrite (tokenize_rune_after_flush c t ft n fn Hstart Hf).
      reflexivity.
Qed.

(** C8: [calculate] does not depend on the whitespace between tokens. A
    whitespace character only flushes the number being read and emits no
    token, so an input with a blank more, at a place other than between two
    characters of a number, has the same tokens and the same result;
    ["1+1"] and [" 1 + 1 "] give the same result. *)
Theorem whitespace_insensitive (input1 input2 : string)
        (pre post : list rune) (sp : rune) :
  IsSpace sp = true -> IsDigit sp = false ->
  ends_with_number pre && starts_with_number post = false ->
  range_runes input1 = pre ++ sp :: post ->
  range_runes input2 = pre ++ post ->
  (forall tokens numBuilder,
     tokenize_rune sp tokens numBuilder = Ok (flush tokens numBuilder))
  /\ tokenize input1 = tokenize input2
  /\ calculate input1 = calculate input2
  /\ calculate "1+1" = calculate " 1 + 1 "
  /\ calculate " 1 + 1 " = Ok (f64_of_Z 2).
Proof.
  intros Hsp Hd Hsep H1 H2.
  assert (Htok : tokenize input1 = tokenize input2).
  { unfold tokenize. rewrite H1, H2.
    apply tokenize_runes_skip_space; assumption. }
  split; [intros; apply whitespace_flushes; assumption|].
  split; [exact Htok|].
  split; [unfold calculate; rewrite Htok; reflexivity|].
  split; vm_compute; reflexivity.
Qed.

(** ** The converter on expressions *)

Lemma pop_operators_run (token : Token) (pend stack output : list Token) :
  Forall (fun p => Type_ p = OPERATOR
                   /\ precedence (Value token) <= precedence (Value p)) pend ->
  match stack with
  | [] => True
  | top :: _ =>
    Type_ top <> OPERATOR \/ precedence (Value top) < precedence (Value token)
  end ->
  pop_operators token (pend ++ stack) output = (stack, output ++ pend).
Proof.
  intros Hpend Hstack. revert output.
  induction Hpend as [|p pend (Hty & Hprec) _ IH]; intros output; simpl.
  - rewrite app_nil_r. destruct stack as [|top stack]; [reflexivity|].
    simpl. destruct Hstack as [Hne|Hlt].
    + apply Z.eqb_neq in Hne. rewrite Hne. reflexivity.
    + apply Z.leb_gt in Hlt. rewrite Hlt, andb_false_r. reflexivity.
  - rewrite Hty. apply Z.leb_le in Hprec. rewrite Hprec. simpl.
    rewrite IH, <- app_assoc. reflexivity.
Qed.

Lemma pop_to_lparen_run (pend stack output : list Token) (top : Token) :
  Forall (fun p => Type_ p = OPERATOR) pend ->
  Type_ top = LPAREN ->
  pop_to_lparen (pend ++ top :: stack) output = (top :: stack, output ++ pend).
Proof.
  intros Hpend Htop. revert output.
  induction Hpend as [|p pend Hty _ IH]; intros output; simpl.
  - rewrite Htop, app_nil_r. reflexivity.
  - rewrite Hty. simpl. rewrite IH, <- app_assoc. reflexivity.
Qed.

Lemma pop_all_run (pend output : list Token) :
  Forall (fun p => Type_ p = OPERATOR) pend ->
  pop_all pend output = Ok (output ++ pend).
Proof.
  intros Hpend. revert output.
  induction Hpend as [|p pend Hty _ IH]; intros output; simpl.
  - rewrite app_nil_r. reflexivity.
  - rewrite Hty. simpl. rewrite IH, <- app_assoc. reflexivity.
Qed.

Lemma pending_term_products (t : term) :
  Forall (fun p => Type_ p = OPERATOR /\ 2 <= precedence (Value p)) (pending_term t).
Proof.
  destruct t as [f|t o f]; simpl; constructor; [|constructor].
  split; [reflexivity|]. destruct o; vm_compute; discriminate.
Qed.

Lemma pending_expr_operators (e : expr) :
  Forall (fun p => Type_ p = OPERATOR /\ 1 <= precedence (Value p)) (pending_expr e).
Proof.
  assert (Ht : forall t, Forall (fun p => Type_ p = OPERATOR
                                          /\ 1 <= precedence (Value p)) (pending_term t)).
  { intros t. eapply Forall_impl; [|apply pending_term_products].
    simpl. intros p (Hty & Hp). split; [exact Hty|lia]. }
  destruct e as [t|e o t]; simpl; [apply Ht|].
  apply Forall_app. split; [apply Ht|].
  constructor; [|constructor].
  split; [reflexivity|]. destruct o; vm_compute; discriminate.
Qed.

Lemma postfix_term_split (t : term) :
  postfix_term t = emitted_term t ++ pending_term t.
Proof.
  destruct t as [f|t o f]; simpl.
  - rewrite app_nil_r. reflexivity.
  - rewrite app_assoc. reflexivity.
Qed.

Lemma postfix_expr_split (e : expr) :
  postfix_expr e = emitted_expr e ++ pending_expr e.
Proof.
  destruct e as [t|e o t]; simpl.
  - apply postfix_term_split.
  - rewrite postfix_term_split, <- !app_assoc. reflexivity.
Qed.

Lemma no_operator_no_product (stack : list Token) :
  no_operator_on_top stack -> no_product_on_top stack.
Proof. destruct stack as [|top stack]; simpl; auto. Qed.

Lemma toPostfix_loop_operator (text : string) (rest stack output : list Token) :
  toPostfix_loop (op text :: rest) stack output
  = toPostfix_loop rest
      (op text :: fst (pop_operators (op text) stack output))
      (snd (pop_operators (op text) stack output)).
Proof.
  simpl. unfold toPostfix_token. simpl.
  destruct (pop_operators (op text) stack output). reflexivity.
Qed.

(** The first loop of [toPostfix] on the tokens of a factor, of a term and of
    an expression, whatever follows them: a factor is emitted whole; a term
    and an expression are emitted up to the operators that still wait. *)
Lemma toPostfix_loop_expression :
  (forall f rest stack output,
      toPostfix_loop (infix_factor f ++ rest) stack output
      = toPostfix_loop rest stack (output ++ postfix_factor f))
  /\ (forall t rest stack output,
         no_product_on_top stack ->
         toPostfix_loop (infix_term t ++ rest) stack output
         = toPostfix_loop rest (pending_term t ++ stack)
                          (output ++ emitted_term t))
  /\ (forall e rest stack output,
         no_operator_on_top stack ->
         toPostfix_loop (infix_expr e ++ rest) stack output
         = toPostfix_loop rest (pending_expr e ++ stack)
                          (output ++ emitted_expr e)).
Proof.
  apply expression_mutind.
  - (* a number *)
    intros text rest stack output. reflexivity.
  - (* a parenthesized expression *)
    intros e IHe rest stack output.
    change (infix_factor (FParen e) ++ rest)
      with (lparen :: (infix_expr e ++ [rparen]) ++ rest).
    rewrite <- app_assoc.
    change (toPostfix_loop (lparen :: infix_expr e ++ [rparen] ++ rest) stack output)
      with (toPostfix_loop (infix_expr e ++ rparen :: rest) (lparen :: stack) output).
    rewrite IHe by (simpl; discriminate).
    change (toPostfix_loop (rparen :: rest) (pending_expr e ++ lparen :: stack)
                           (output ++ emitted_expr e))
      with ('(stack', output') <-
              (let '(stack0, output0) :=
                 pop_to_lparen (pending_expr e ++ lparen :: stack)
                               (output ++ emitted_expr e) in
               match stack0 with
               | [] => Err ErrMismatchedParentheses
               | top :: stack1 =>
                 if negb (Type_ top =? LPAREN) then Err ErrMismatchedParentheses
                 else Ok (stack1, output0)
               end) ;;
            toPostfix_loop rest stack' output').
    rewrite pop_to_lparen_run; [|eapply Forall_impl; [|apply pending_expr_operators];
                                 simpl; intros p Hp; apply Hp|reflexivity].
    simpl. rewrite <- app_assoc, <- postfix_expr_split. reflexivity.
  - (* a term that is one factor *)
    intros f IHf rest stack output _. simpl. apply IHf.
  - (* a product *)
    intros t IHt o f IHf rest stack output Hstack.
    simpl infix_term. rewrite <- app_assoc. rewrite IHt by exact Hstack.
    change ((op (mulop_text o) :: infix_factor f) ++ rest)
      with (op (mulop_text o) :: infix_factor f ++ rest).
    rewrite toPostfix_loop_operator, pop_operators_run.
    + simpl fst; simpl snd. rewrite IHf. simpl. rewrite <- !app_assoc, (app_assoc (emitted_term t)),
        <- postfix_term_split. reflexivity.
    + eapply Forall_impl; [|apply pending_term_products].
      simpl. intros p (Hty & Hp). split; [exact Hty|].
      destruct o; exact Hp.
    + destruct stack as [|top stack]; [exact I|]. simpl in Hstack.
      destruct Hstack as [Hne|Hlt]; [left; exact Hne|right].
      destruct o; exact Hlt.
  - (* an expression that is one term *)
    intros t IHt rest stack output Hstack. simpl.
    apply IHt. apply no_operator_no_product. exact Hstack.
  - (* a sum *)
    intros e IHe o t IHt rest stack output Hstack.
    simpl infix_expr. rewrite <- app_assoc. rewrite IHe by exact Hstack.
    change ((op (addop_text o) :: infix_term t) ++ rest)
      with (op (addop_text o) :: infix_term t ++ rest).
    rewrite toPostfix_loop_operator, pop_operators_run.
    + simpl fst; simpl snd. rewrite IHt.
      * simpl. rewrite <- !app_assoc, (app_assoc (emitted_expr e)),
          <- postfix_expr_split. reflexivity.
      * simpl. right. destruct o; vm_compute; reflexivity.
    + eapply Forall_impl; [|apply pending_expr_operators].
      simpl. intros p (Hty & Hp). split; [exact Hty|].
      destruct o; exact Hp.
    + destruct stack as [|top stack]; [exact I|]. left. exact Hstack.
Qed.

Lemma toPostfix_infix_expr (e : expr) :
  toPostfix (infix_expr e) = Ok (postfix_expr e).
Proof.
  destruct toPostfix_loop_expression as (_ & _ & He).
  unfold toPostfix.
  rewrite <- (app_nil_r (infix_expr e)), He by exact I.
  simpl. rewrite app_nil_r, pop_all_run.
  - rewrite <- postfix_expr_split. reflexivity.
  - eapply Forall_impl; [|apply pending_expr_operators]. simpl. intros p Hp. apply Hp.
Qed.

(** ** The evaluator on postfix forms *)

Lemma evaluate_loop_number (text : string) (rest : list Token) (stack : list float64) :
  evaluate_loop (num text :: rest) stack
  = (v <- ParseFloat text ;; evaluate_loop rest (v :: stack)).
Proof.
  simpl. unfold evaluate_token. simpl.
  destruct (ParseFloat text); reflexivity.
Qed.

Lemma evaluate_loop_mulop (o : mulop) (rest : list Token) (a b : float64)
      (stack : list float64) :
  evaluate_loop (op (mulop_text o) :: rest) (b :: a :: stack)
  = (v <- eval_mulop o a b ;; evaluate_loop rest (v :: stack)).
Proof.
  destruct o; simpl; unfold evaluate_token, apply_operator; simpl.
  - reflexivity.
  - destruct (f64_eq b f64_zero); reflexivity.
Qed.

Lemma evaluate_loop_addop (o : addop) (rest : list Token) (a b : float64)
      (stack : list float64) :
  evaluate_loop (op (addop_text o) :: rest) (b :: a :: stack)
  = evaluate_loop rest (eval_addop o a b :: stack).
Proof. destruct o; reflexivity. Qed.

(** The loop of [evaluatePostfix] on the postfix form of an expression,
    whatever follows it: the value of the expression is pushed, or its error
    is returned. *)
Lemma evaluate_loop_expression :
  (forall f rest stack,
      evaluate_loop (postfix_factor f ++ rest) stack
      = (v <- eval_factor f ;; evaluate_loop rest (v :: stack)))
  /\ (forall t rest stack,
         evaluate_loop (postfix_term t ++ rest) stack
         = (v <- eval_term t ;; evaluate_loop rest (v :: stack)))
  /\ (forall e rest stack,
         evaluate_loop (postfix_expr e ++ rest) stack
         = (v <- eval_expr e ;; evaluate_loop rest (v :: stack))).
Proof.
  apply expression_mutind.
  - intros text rest stack. apply evaluate_loop_number.
  - intros e IHe rest stack. apply IHe.
  - intros f IHf rest stack. apply IHf.
  - intros t IHt o f IHf rest stack.
    simpl postfix_term. rewrite <- !app_assoc, IHt. simpl eval_term.
    destruct (eval_term t) as [a|err]; simpl; [|reflexivity].
    rewrite IHf. destruct (eval_factor f) as [b|err]; simpl; [|reflexivity].
    apply evaluate_loop_mulop.
  - intros t IHt rest stack. apply IHt.
  - intros e IHe o t IHt rest stack.
    simpl postfix_expr. rewrite <- !app_assoc, IHe. simpl eval_expr.
    destruct (eval_expr e) as [a|err]; simpl; [|reflexivity].
    rewrite IHt. destruct (eval_term t) as [b|err]; simpl; [|reflexivity].
    apply evaluate_loop_addop.
Qed.

Lemma evaluatePostfix_postfix_expr (e : expr) :
  evaluatePostfix (postfix_expr e) = eval_expr e.
Proof.
  destruct evaluate_loop_expression as (_ & _ & He).
  unfold evaluatePostfix.
  rewrite <- (app_nil_r (postfix_expr e)), He.
  destruct (eval_expr e); reflexivity.
Qed.

(** The errors of an expression: a division by zero, or the error of a
    number that does not parse. *)
Lemma eval_expression_errors :
  (forall f err, eval_factor f = Err err ->
     err = ErrDivisionByZero
     \/ exists text, In (num text) (infix_factor f) /\ ParseFloat text = Err err)
  /\ (forall t err, eval_term t = Err err ->
        err = ErrDivisionByZero
        \/ exists text, In (num text) (infix_term t) /\ ParseFloat text = Err err)
  /\ (forall e err, eval_expr e = Err err ->
        err = ErrDivisionByZero
        \/ exists text, In (num text) (infix_expr e) /\ ParseFloat text = Err err).
Proof.
  apply expression_mutind.
  - intros text err H. right. exists text. simpl. auto.
  - intros e IHe err H. destruct (IHe err H) as [Hd|(text & Hin & Hp)]; [left; exact Hd|].
    right. exists text. split; [|exact Hp].
    simpl. right. apply in_or_app. left. exact Hin.
  - intros f IHf err H. apply IHf. exact H.
  - intros t IHt o f IHf err H. simpl in H.
    destruct (eval_term t) as [a|e1] eqn:Ht; simpl in H.
    + destruct (eval_factor f) as [b|e2] eqn:Hf; simpl in H.
      * left. destruct o; simpl in H; [discriminate|].
        destruct (f64_eq b f64_zero); inversion H; reflexivity.
      * inversion H; subst.
        destruct (IHf err eq_refl) as [Hd|(text & Hin & Hp)]; [left; exact Hd|].
        right. exists text. split; [|exact Hp].
        simpl. apply in_or_app. right. right. exact Hin.
    + inversion H; subst.
      destruct (IHt err eq_refl) as [Hd|(text & Hin & Hp)]; [left; exact Hd|].
      right. exists text. split; [|exact Hp].
      simpl. apply in_or_app. left. exact Hin.
  - intros t IHt err H. apply IHt. exact H.
  - intros e IHe o t IHt err H. simpl in H.
    destruct (eval_expr e) as [a|e1] eqn:He; simpl in H.
    + destruct (eval_term t) as [b|e2] eqn:Ht; simpl in H; [discriminate|].
      inversion H; subst.
      destruct (IHt err eq_refl) as [Hd|(text & Hin & Hp)]; [left; exact Hd|].
      right. exists text. split; [|exact Hp].
      simpl. apply in_or_app. right. right. exact Hin.
    + inversion H; subst.
      destruct (IHe err eq_refl) as [Hd|(text & Hin & Hp)]; [left; exact Hd|].
      right. exists text. split; [|exact Hp].
      simpl. apply in_or_app. left. exact Hin.
Qed.

(** ** Tokenizing what was written *)

Lemma number_byte (c : ascii) :
  is_digit_byte c || is_point_byte c = true ->
  number_rune (byte_val c) = true
  /\ EncodeRune (byte_val c) = String c EmptyString
  /\ DecodeRuneInString (String c EmptyString) = (byte_val c, 1%nat)
  /\ byte_val c < 0x80.
Proof.
  destruct c as [[] [] [] [] [] [] [] []]; vm_compute; intros H;
    try discriminate H; repeat split; reflexivity.
Qed.

Lemma range_from_ascii (c : ascii) (s : string) :
  byte_val c < 0x80 ->
  range_from (String c s) 0 = byte_val c :: range_from s 0.
Proof.
  intros Hc. cbn [range_from]. unfold DecodeRuneInString, first.
  apply Z.ltb_lt in Hc. rewrite Hc. reflexivity.
Qed.

Lemma range_runes_decimal (s rest : string) :
  is_decimal_text s = true ->
  range_runes (s ++ rest)
  = map byte_val (list_ascii_of_string s) ++ range_runes rest.
Proof.
  unfold range_runes. induction s as [|c s IH]; intros H; simpl in H.
  - reflexivity.
  - apply andb_true_iff in H. destruct H as (Hc & Hs).
    destruct (number_byte c Hc) as (_ & _ & _ & Hlt).
    change ((String c s ++ rest)%string) with (String c (s ++ rest)).
    rewrite range_from_ascii by exact Hlt.
    simpl. rewrite IH by exact Hs. reflexivity.
Qed.

Lemma tokenize_loop_decimal (s : string) (rs : list rune) (tokens : list Token)
      (numBuilder : string) :
  is_decimal_text s = true ->
  tokenize_loop (map byte_val (list_ascii_of_string s) ++ rs) tokens numBuilder
  = tokenize_loop rs tokens (numBuilder ++ s).
Proof.
  revert numBuilder. induction s as [|c s IH]; intros numBuilder H; simpl in H.
  - simpl. rewrite string_app_nil_r. reflexivity.
  - apply andb_true_iff in H. destruct H as (Hc & Hs).
    destruct (number_byte c Hc) as (Hnum & Henc & _).
    simpl. unfold tokenize_rune. unfold number_rune in Hnum.
    rewrite Hnum, Henc. simpl.
    rewrite IH by exact Hs. rewrite string_app_assoc. reflexivity.
Qed.

Lemma tokenize_rune_blank (tokens : list Token) (numBuilder : string) :
  tokenize_rune (rune_of " ") tokens numBuilder = Ok (flush tokens numBuilder).
Proof. reflexivity. Qed.

(** One written token and its blank, read from an empty accumulator. *)
Lemma tokenize_loop_written (t : Token) (rest : string) (tokens : list Token) :
  written_token t ->
  tokenize_loop (range_runes (Value t ++ String " " rest)) tokens EmptyString
  = tokenize_loop (range_runes rest) (tokens ++ [t]) EmptyString.
Proof.
  intros [(Hty & Hlen & Hdec)|[(Hty & Hin)|[->| ->]]].
  - destruct t as [ty text]. simpl in *. subst ty.
    rewrite range_runes_decimal by exact Hdec.
    rewrite tokenize_loop_decimal by exact Hdec. simpl.
    unfold flush. apply Z.ltb_lt in Hlen. rewrite Hlen. reflexivity.
  - destruct t as [ty text]. simpl in *. subst ty.
    destruct Hin as [<-|[<-|[<-|[<-|[]]]]]; reflexivity.
  - reflexivity.
  - reflexivity.
Qed.

Lemma tokenize_loop_write_tokens (written tokens : list Token) :
  Forall written_token written ->
  tokenize_loop (range_runes (write_tokens written)) tokens EmptyString
  = Ok (tokens ++ written, EmptyString).
Proof.
  intros H. revert tokens.
  induction H as [|t written Ht _ IH]; intros tokens; simpl.
  - rewrite app_nil_r. reflexivity.
  - rewrite tokenize_loop_written by exact Ht.
    rewrite IH, <- app_assoc. reflexivity.
Qed.

Lemma tokenize_write_tokens (tokens : list Token) :
  Forall written_token tokens ->
  tokenize (write_tokens tokens) = Ok tokens.
Proof.
  intros H. unfold tokenize, tokenize_runes.
  rewrite (tokenize_loop_write_tokens tokens [] H). reflexivity.
Qed.

Lemma infix_expression_tokens :
  (forall f t, In t (infix_factor f) ->
     (exists text, t = num text) \/ (Type_ t = OPERATOR /\ In (Value t) ["+"; "-"; "*"; "/"])
     \/ t = lparen \/ t = rparen)
  /\ (forall x t, In t (infix_term x) ->
     (exists text, t = num text) \/ (Type_ t = OPERATOR /\ In (Value t) ["+"; "-"; "*"; "/"])
     \/ t = lparen \/ t = rparen)
  /\ (forall e t, In t (infix_expr e) ->
     (exists text, t = num text) \/ (Type_ t = OPERATOR /\ In (Value t) ["+"; "-"; "*"; "/"])
     \/ t = lparen \/ t = rparen).
Proof.
  apply expression_mutind.
  - intros text t [<-|[]]. left. exists text. reflexivity.
  - intros e IHe t Hin. simpl in Hin. destruct Hin as [<-|Hin]; [auto|].
    apply in_app_or in Hin. destruct Hin as [Hin|[<-|[]]]; [apply IHe; exact Hin|auto].
  - intros f IHf t Hin. apply IHf. exact Hin.
  - intros x IHx o f IHf t Hin. simpl in Hin.
    apply in_app_or in Hin. destruct Hin as [Hin|[<-|Hin]].
    + apply IHx. exact Hin.
    + right. left. split; [reflexivity|]. destruct o; simpl; auto.
    + apply IHf. exact Hin.
  - intros x IHx t Hin. apply IHx. exact Hin.
  - intros e IHe o x IHx t Hin. simpl in Hin.
    apply in_app_or in Hin. destruct Hin as [Hin|[<-|Hin]].
    + apply IHe. exact Hin.
    + right. left. split; [reflexivity|]. destruct o; simpl; auto.
    + apply IHx. exact Hin.
Qed.

Lemma infix_expr_written (e : expr) :
  decimal_numbers e -> Forall written_token (infix_expr e).
Proof.
  intros Hdec. apply Forall_forall. intros t Hin.
  destruct infix_expression_tokens as (_ & _ & He).
  destruct (He e t Hin) as [(text & ->)|[Hop|[->| ->]]].
  - left. split; [reflexivity|]. apply Hdec. exact Hin.
  - right. left. exact Hop.
  - right. right. left. reflexivity.
  - right. right. right. reflexivity.
Qed.

Lemma calculate_of_tokens (input : string) (e : expr) :
  tokenize input = Ok (infix_expr e) ->
  calculate input = eval_expr e.
Proof.
  intros H. unfold calculate. rewrite H. simpl.
  rewrite toPostfix_infix_expr. simpl. apply evaluatePostfix_postfix_expr.
Qed.

(** ** More on the tokenizer's loop *)

Lemma forallb_false_witness {A : Type} (f : A -> bool) (l : list A) :
  forallb f l = false -> exists x, In x l /\ f x = false.
Proof.
  induction l as [|x l IH]; simpl; [discriminate|].
  destruct (f x) eqn:Hx; simpl.
  - intros H. destruct (IH H) as (y & Hin & Hy). exists y. auto.
  - intros _. exists x. auto.
Qed.

Lemma tokenize_runes_valid (rs : list rune) :
  forallb valid_rune rs = true -> exists tokens, tokenize_runes rs = Ok tokens.
Proof.
  intros H. unfold tokenize_runes.
  destruct (tokenize_loop_valid rs [] EmptyString H) as ([t n] & Hst).
  rewrite Hst. simpl. destruct (0 <? len n); eexists; reflexivity.
Qed.

Lemma tokenize_runes_result (rs : list rune) :
  match tokenize_runes rs with
  | Ok _ => forallb valid_rune rs = true
  | Err e =>
    exists pre c post,
      rs = pre ++ c :: post /\ forallb valid_rune pre = true
      /\ valid_rune c = false /\ e = ErrInvalidCharacter c
  end.
Proof.
  destruct (forallb valid_rune rs) eqn:Hall.
  - destruct (tokenize_runes_valid rs Hall) as (tokens & ->). reflexivity.
  - destruct (forallb_false_witness _ _ Hall) as (r & Hin & Hr).
    destruct (first_invalid rs (ex_intro _ r (conj Hin Hr)))
      as (pre & c & post & Heq & Hpre & Hc).
    subst rs. rewrite (tokenize_runes_invalid pre post c Hpre Hc).
    exists pre, c, post. auto.
Qed.

Lemma operator_rune_text (r : rune) :
  ContainsRune "+-*/" r = true -> In (EncodeRune r) ["+"; "-"; "*"; "/"].
Proof.
  unfold ContainsRune. rewrite operator_runes. simpl. intros H.
  repeat (apply orb_true_iff in H; destruct H as [H|H]);
    try discriminate H; apply Z.eqb_eq in H; subst r; simpl; auto.
Qed.

Lemma tokenize_rune_shapes (r : rune) (tokens tokens' : list Token)
      (numBuilder numBuilder' : string) :
  Forall tokenized_token tokens -> number_text numBuilder ->
  tokenize_rune r tokens numBuilder = Ok (tokens', numBuilder') ->
  Forall tokenized_token tokens' /\ number_text numBuilder'.
Proof.
  intros Ht Hn. unfold tokenize_rune.
  assert (Hf : Forall tokenized_token (fst (flush tokens numBuilder))
               /\ snd (flush tokens numBuilder) = EmptyString).
  { split; [|apply flush_snd]. unfold flush.
    destruct (0 <? len numBuilder) eqn:Hlen; simpl; [|exact Ht].
    apply Forall_snoc; [exact Ht|]. left. simpl.
    apply Z.ltb_lt in Hlen. auto. }
  destruct Hf as (Hft & Hfn).
  destruct (flush tokens numBuilder) as [ftokens fnum]. simpl in Hft, Hfn. subst fnum.
  destruct (IsDigit r || (r =? rune_of ".")) eqn:Hnum.
  { intros H. inversion H; subst. split; [exact Ht|].
    destruct Hn as (rs & Hrs & Heq). exists (rs ++ [r]). split.
    - rewrite forallb_app, Hrs. simpl. unfold number_rune.
      rewrite Hnum. reflexivity.
    - rewrite encode_runes_app, Heq. simpl. rewrite string_app_nil_r. reflexivity. }
  destruct (ContainsRune "+-*/" r) eqn:Hop.
  { intros H. inversion H; subst. split; [|apply number_text_empty].
    apply Forall_snoc; [exact Hft|]. right. left. split; [reflexivity|].
    apply operator_rune_text. exact Hop. }
  destruct (Z.eqb_spec r (rune_of "(")) as [->|_].
  { intros H. inversion H; subst. split; [|apply number_text_empty].
    apply Forall_snoc; [exact Hft|]. right. right. left. reflexivity. }
  destruct (Z.eqb_spec r (rune_of ")")) as [->|_].
  { intros H. inversion H; subst. split; [|apply number_text_empty].
    apply Forall_snoc; [exact Hft|]. right. right. right. reflexivity. }
  destruct (IsSpace r).
  { intros H. inversion H; subst. split; [exact Hft|apply number_text_empty]. }
  discriminate.
Qed.

Lemma tokenize_runes_shapes (rs : list rune) (tokens : list Token) :
  tokenize_runes rs = Ok tokens -> Forall tokenized_token tokens.
Proof.
  unfold tokenize_runes.
  assert (Hloop : forall rs t n t' n',
             Forall tokenized_token t -> number_text n ->
             tokenize_loop rs t n = Ok (t', n') ->
             Forall tokenized_token t' /\ number_text n').
  { clear rs tokens. induction rs as [|r rs IH]; intros t n t' n' Ht Hn H; simpl in H.
    - inversion H; subst. auto.
    - destruct (tokenize_rune r t n) as [[t1 n1]|e] eqn:Hstep; simpl in H;
        [|discriminate].
      destruct (tokenize_rune_shapes _ _ _ _ _ Ht Hn Hstep) as (Ht1 & Hn1).
      exact (IH _ _ _ _ Ht1 Hn1 H). }
  intros H.
  destruct (tokenize_loop rs [] EmptyString) as [[t n]|e] eqn:Hl; simpl in H;
    [|discriminate].
  destruct (Hloop _ _ _ _ _ (Forall_nil _) number_text_empty Hl) as (Ht & Hn).
  destruct (0 <? len n) eqn:Hlen; inversion H; subst; [|exact Ht].
  apply Forall_snoc; [exact Ht|]. left. simpl. apply Z.ltb_lt in Hlen. auto.
Qed.

(** The texts of the tokens and the accumulator, together, grow by the
    encoding of each rune that is no blank. *)
Lemma token_values_app (xs ys : list Token) :
  token_values (xs ++ ys) = (token_values xs ++ token_values ys)%string.
Proof.
  induction xs as [|x xs IH]; simpl; [reflexivity|].
  rewrite IH, string_app_assoc. reflexivity.
Qed.

Lemma flush_values (tokens : list Token) (numBuilder : string) :
  (token_values (fst (flush tokens numBuilder)) ++ snd (flush tokens numBuilder))%string
  = (token_values tokens ++ numBuilder)%string.
Proof.
  unfold flush. destruct (0 <? len numBuilder); simpl; [|reflexivity].
  rewrite token_values_app. simpl. rewrite !string_app_nil_r. reflexivity.
Qed.

Lemma tokenize_rune_values (r : rune) (tokens tokens' : list Token)
      (numBuilder numBuilder' : string) :
  tokenize_rune r tokens numBuilder = Ok (tokens', numBuilder') ->
  (token_values tokens' ++ numBuilder')%string
  = ((token_values tokens ++ numBuilder)
     ++ (if token_rune r then EncodeRune r else EmptyString))%string.
Proof.
  unfold tokenize_rune, token_rune, number_rune.
  pose proof (flush_values tokens numBuilder) as Hf.
  pose proof (flush_snd tokens numBuilder) as Hs.
  destruct (flush tokens numBuilder) as [ft fn]. simpl in Hf, Hs. subst fn.
  rewrite string_app_nil_r in Hf.
  destruct (IsDigit r || (r =? rune_of ".")); simpl.
  { intros H. inversion H; subst. rewrite string_app_assoc. reflexivity. }
  destruct (ContainsRune "+-*/" r); simpl.
  { intros H. inversion H; subst.
    rewrite token_values_app, Hf. simpl. rewrite !string_app_nil_r. reflexivity. }
  destruct (r =? rune_of "("); simpl.
  { intros H. inversion H; subst.
    rewrite token_values_app, Hf. simpl. rewrite !string_app_nil_r. reflexivity. }
  destruct (r =? rune_of ")"); simpl.
  { intros H. inversion H; subst.
    rewrite token_values_app, Hf. simpl. rewrite !string_app_nil_r. reflexivity. }
  destruct (IsSpace r).
  { intros H. inversion H; subst. rewrite !string_app_nil_r. exact Hf. }
  discriminate.
Qed.

Lemma tokenize_loop_values (rs : list rune) (tokens tokens' : list Token)
      (numBuilder numBuilder' : string) :
  tokenize_loop rs tokens numBuilder = Ok (tokens', numBuilder') ->
  (token_values tokens' ++ numBuilder')%string
  = ((token_values tokens ++ numBuilder)
     ++ encode_runes (filter token_rune rs))%string.
Proof.
  revert tokens numBuilder.
  induction rs as [|r rs IH]; intros tokens numBuilder H; simpl in H.
  - inversion H; subst. simpl. rewrite string_app_nil_r. reflexivity.
  - destruct (tokenize_rune r tokens numBuilder) as [[t1 n1]|e] eqn:Hstep;
      simpl in H; [|discriminate].
    rewrite (IH _ _ H), (tokenize_rune_values _ _ _ _ _ Hstep).
    simpl. destruct (token_rune r); simpl.
    + rewrite !string_app_assoc. reflexivity.
    + rewrite string_app_nil_r. reflexivity.
Qed.

(** ** Tokenizing piece by piece *)

Lemma flush_prefix (prefix tokens : list Token) (numBuilder : string) :
  flush (prefix ++ tokens) numBuilder
  = (prefix ++ fst (flush tokens numBuilder), snd (flush tokens numBuilder)).
Proof.
  unfold flush. destruct (0 <? len numBuilder); simpl; [|reflexivity].
  rewrite app_assoc. reflexivity.
Qed.

Lemma tokenize_rune_prefix (r : rune) (prefix tokens : list Token) (numBuilder : string) :
  tokenize_rune r (prefix ++ tokens) numBuilder
  = ('(tokens', numBuilder') <- tokenize_rune r tokens numBuilder ;;
     Ok (prefix ++ tokens', numBuilder')).
Proof.
  unfold tokenize_rune. rewrite flush_prefix.
  destruct (flush tokens numBuilder) as [ft fn]. simpl.
  destruct (IsDigit r || (r =? rune_of ".")); [reflexivity|].
  destruct (ContainsRune "+-*/" r); [simpl; rewrite app_assoc; reflexivity|].
  destruct (r =? rune_of "("); [simpl; rewrite app_assoc; reflexivity|].
  destruct (r =? rune_of ")"); [simpl; rewrite app_assoc; reflexivity|].
  destruct (IsSpace r); reflexivity.
Qed.

Lemma tokenize_loop_prefix (rs : list rune) (prefix tokens : list Token)
      (numBuilder : string) :
  tokenize_loop rs (prefix ++ tokens) numBuilder
  = ('(tokens', numBuilder') <- tokenize_loop rs tokens numBuilder ;;
     Ok (prefix ++ tokens', numBuilder')).
Proof.
  revert tokens numBuilder.
  induction rs as [|r rs IH]; intros tokens numBuilder; simpl; [reflexivity|].
  rewrite tokenize_rune_prefix.
  destruct (tokenize_rune r tokens numBuilder) as [[t n]|e]; simpl; [apply IH|reflexivity].
Qed.

(** The loop of [tokenize], its last flush included, from any tokens read
    before and an empty accumulator. *)
Lemma tokenize_runes_after (rs : list rune) (prefix : list Token) :
  ('(tokens, numBuilder) <- tokenize_loop rs prefix EmptyString ;;
   if 0 <? len numBuilder
   then Ok (tokens ++ [mkToken NUMBER numBuilder])
   else Ok tokens)
  = (tokens <- tokenize_runes rs ;; Ok (prefix ++ tokens)).
Proof.
  unfold tokenize_runes.
  rewrite <- (app_nil_r prefix) at 1. rewrite tokenize_loop_prefix.
  destruct (tokenize_loop rs [] EmptyString) as [[t n]|e]; simpl; [|reflexivity].
  destruct (0 <? len n); simpl; [rewrite app_assoc|]; reflexivity.
Qed.

Lemma tokenize_runes_flush (rs : list rune) :
  tokenize_runes rs
  = ('(tokens, numBuilder) <- tokenize_loop rs [] EmptyString ;;
     Ok (fst (flush tokens numBuilder))).
Proof.
  unfold tokenize_runes, flush.
  destruct (tokenize_loop rs [] EmptyString) as [[t n]|e]; simpl; [|reflexivity].
  destruct (0 <? len n); reflexivity.
Qed.

Lemma tokenize_rune_punctuation (r : rune) (token : Token) (tokens : list Token)
      (numBuilder : string) :
  punctuation_token r = Some token ->
  tokenize_rune r tokens numBuilder
  = Ok (fst (flush tokens numBuilder) ++ [token], EmptyString).
Proof.
  unfold punctuation_token, number_rune, tokenize_rune.
  pose proof (flush_snd tokens numBuilder) as Hs.
  destruct (flush tokens numBuilder) as [ft fn]. simpl in Hs. subst fn. simpl.
  destruct (IsDigit r || (r =? rune_of ".")); [discriminate|].
  destruct (ContainsRune "+-*/" r); [intros H; inversion H; reflexivity|].
  destruct (r =? rune_of "("); [intros H; inversion H; reflexivity|].
  destruct (r =? rune_of ")"); [intros H; inversion H; reflexivity|].
  discriminate.
Qed.

Lemma tokenize_runes_split (xs ys : list rune) (c : rune) (token : Token) :
  punctuation_token c = Some token ->
  tokenize_runes (xs ++ c :: ys)
  = (txs <- tokenize_runes xs ;;
     tys <- tokenize_runes ys ;;
     Ok (txs ++ token :: tys)).
Proof.
  intros Hc. rewrite (tokenize_runes_flush xs).
  unfold tokenize_runes at 1. rewrite tokenize_loop_app.
  destruct (tokenize_loop xs [] EmptyString) as [[t n]|e]; simpl; [|reflexivity].
  rewrite (tokenize_rune_punctuation c token t n Hc). simpl.
  rewrite tokenize_runes_after.
  destruct (tokenize_runes ys); simpl; [|reflexivity].
  rewrite <- app_assoc. reflexivity.
Qed.

Lemma blank_rune_flushes (r : rune) (tokens : list Token) (numBuilder : string) :
  blank_rune r = true ->
  tokenize_rune r tokens numBuilder = Ok (flush tokens numBuilder).
Proof.
  unfold blank_rune. intros H. apply andb_true_iff in H. destruct H as (Hd & Hs).
  apply negb_true_iff in Hd. apply whitespace_flushes; assumption.
Qed.

Lemma tokenize_runes_split_blank (xs ys : list rune) (sp : rune) :
  blank_rune sp = true ->
  tokenize_runes (xs ++ sp :: ys)
  = (txs <- tokenize_runes xs ;;
     tys <- tokenize_runes ys ;;
     Ok (txs ++ tys)).
Proof.
  intros Hsp. rewrite (tokenize_runes_flush xs).
  unfold tokenize_runes at 1. rewrite tokenize_loop_app.
  destruct (tokenize_loop xs [] EmptyString) as [[t n]|e]; simpl; [|reflexivity].
  rewrite (blank_rune_flushes sp t n Hsp). simpl.
  pose proof (flush_snd t n) as Hs.
  destruct (flush t n) as [ft fn]. simpl in Hs. subst fn. simpl.
  apply tokenize_runes_after.
Qed.

Lemma tokenize_runes_blanks (rs : list rune) :
  forallb blank_rune rs = true -> tokenize_runes rs = Ok [].
Proof.
  intros H. unfold tokenize_runes.
  assert (Hl : tokenize_loop rs [] EmptyString = Ok ([], EmptyString)).
  { induction rs as [|r rs IH]; simpl; [reflexivity|].
    simpl in H. apply andb_true_iff in H. destruct H as (Hr & Hrs).
    rewrite (blank_rune_flushes r [] EmptyString Hr). simpl. apply IH. exact Hrs. }
  rewrite Hl. reflexivity.
Qed.

(** ** What the converter keeps *)

Lemma pop_operators_prefix (token : Token) (stack output stack' output' : list Token) :
  pop_operators token stack output = (stack', output') ->
  exists popped,
    stack = popped ++ stack' /\ output' = output ++ popped
    /\ Forall (fun t => Type_ t = OPERATOR) popped.
Proof.
  revert output. induction stack as [|top stack IH]; intros output H; simpl in H.
  - inversion H; subst. exists [].
      split; [reflexivity|split; [symmetry; apply app_nil_r|constructor]].
  - destruct ((Type_ top =? OPERATOR)
              && (precedence (Value token) <=? precedence (Value top))) eqn:Hc.
    + apply andb_true_iff in Hc. destruct Hc as (Hty & _). apply Z.eqb_eq in Hty.
      destruct (IH _ H) as (popped & Hs & Ho & Hp).
      exists (top :: popped). simpl. rewrite Hs at 1.
      rewrite Ho, <- app_assoc. auto.
    + inversion H; subst. exists [].
      split; [reflexivity|split; [symmetry; apply app_nil_r|constructor]].
Qed.

Lemma pop_to_lparen_prefix (stack output stack' output' : list Token) :
  pop_to_lparen stack output = (stack', output') ->
  exists popped,
    stack = popped ++ stack' /\ output' = output ++ popped
    /\ Forall (fun t => Type_ t <> LPAREN) popped.
Proof.
  revert output. induction stack as [|top stack IH]; intros output H; simpl in H.
  - inversion H; subst. exists [].
      split; [reflexivity|split; [symmetry; apply app_nil_r|constructor]].
  - destruct (Z.eqb_spec (Type_ top) LPAREN) as [Hty|Hty]; simpl in H.
    + inversion H; subst. exists [].
      split; [reflexivity|split; [symmetry; apply app_nil_r|constructor]].
    + destruct (IH _ H) as (popped & Hs & Ho & Hp).
      exists (top :: popped). simpl. rewrite Hs at 1.
      rewrite Ho, <- app_assoc. auto.
Qed.

Lemma pop_all_prefix (stack output output' : list Token) :
  pop_all stack output = Ok output' ->
  output' = output ++ stack /\ Forall (fun t => Type_ t <> LPAREN) stack.
Proof.
  revert output. induction stack as [|top stack IH]; intros output H; simpl in H.
  - inversion H; subst. rewrite app_nil_r. auto.
  - destruct (Z.eqb_spec (Type_ top) LPAREN) as [Hty|Hty]; [discriminate|].
    destruct (IH _ H) as (Ho & Hp). rewrite Ho, <- app_assoc. auto.
Qed.

Lemma filter_operators_all (l : list Token) :
  Forall is_operator_or_lparen l ->
  Forall (fun t => Type_ t <> LPAREN) l ->
  filter is_operator l = l /\ filter is_number l = [].
Proof.
  intros H1 H2. induction l as [|t l IH]; [auto|].
  inversion H1 as [|? ? Ht Hl]; inversion H2 as [|? ? Hn Hl']; subst.
  destruct (IH Hl Hl') as (IHo & IHn).
  destruct Ht as [Hop|Hlp]; [|contradiction].
  simpl. unfold is_operator, is_number. rewrite Hop. simpl.
  fold is_operator is_number in *. rewrite IHo, IHn. auto.
Qed.

Lemma filter_operators_popped (l : list Token) :
  Forall (fun t => Type_ t = OPERATOR) l ->
  filter is_operator l = l /\ filter is_number l = [].
Proof.
  intros H. apply filter_operators_all.
  - eapply Forall_impl; [|exact H]. intros t Ht. left. exact Ht.
  - eapply Forall_impl; [|exact H]. simpl. intros t Ht. rewrite Ht. discriminate.
Qed.

(** One step of the converter keeps, between the output and the operators on
    the stack, what was there and the token read if it is a number or an
    operator; the numbers of the output stay in the order read. *)
Lemma toPostfix_token_keeps (token : Token) (stack output stack' output' : list Token) :
  Forall is_operator_or_lparen stack ->
  filter is_number stack = [] ->
  toPostfix_token token stack output = Ok (stack', output') ->
  Forall is_operator_or_lparen stack'
  /\ filter is_number stack' = []
  /\ Permutation (output' ++ filter is_operator stack')
                 ((output ++ filter is_operator stack)
                  ++ filter number_or_operator [token])
  /\ filter is_number output' = filter is_number output ++ filter is_number [token].
Proof.
  intros Hst Hnum. unfold toPostfix_token.
  destruct (Z.eqb_spec (Type_ token) NUMBER) as [Hn|Hn].
  { assert (Hisn : is_number token = true)
      by (unfold is_number; rewrite Hn; reflexivity).
    intros H. inversion H; subst.
    cbn [filter]. unfold number_or_operator. rewrite Hisn. cbn [orb].
    split; [exact Hst|]. split; [exact Hnum|]. split.
    - rewrite <- !app_assoc. apply Permutation_app_head. apply Permutation_app_comm.
    - rewrite filter_app. cbn [filter]. rewrite Hisn. reflexivity. }
  destruct (Z.eqb_spec (Type_ token) OPERATOR) as [Ho|Ho].
  { assert (Hisn : is_number token = false)
      by (unfold is_number; rewrite Ho; reflexivity).
    assert (Hiso : is_operator token = true)
      by (unfold is_operator; rewrite Ho; reflexivity).
    destruct (pop_operators token stack output) as [s0 o0] eqn:Hpop.
    destruct (pop_operators_prefix _ _ _ _ _ Hpop) as (popped & Hs & Hout & Hp).
    destruct (filter_operators_popped popped Hp) as (Hfo & Hfn).
    intros H. inversion H; subst.
    rewrite filter_app in Hnum. rewrite Hfn in Hnum. simpl in Hnum.
    apply Forall_app in Hst. destruct Hst as (_ & Hst').
    cbn [filter]. unfold number_or_operator. rewrite Hisn, Hiso. cbn [orb].
    split; [constructor; [left; exact Ho|exact Hst']|].
    split; [exact Hnum|]. split.
    - rewrite !filter_app, Hfo, <- !app_assoc.
      apply Permutation_app_head. apply Permutation_app_head.
      apply Permutation_cons_append.
    - rewrite filter_app, Hfn, !app_nil_r. reflexivity. }
  destruct (Z.eqb_spec (Type_ token) LPAREN) as [Hl|Hl].
  { assert (Hisn : is_number token = false)
      by (unfold is_number; rewrite Hl; reflexivity).
    assert (Hiso : is_operator token = false)
      by (unfold is_operator; rewrite Hl; reflexivity).
    intros H. inversion H; subst.
    cbn [filter]. unfold number_or_operator. rewrite Hisn, Hiso. cbn [orb].
    split; [constructor; [right; exact Hl|exact Hst]|].
    split; [exact Hnum|]. rewrite !app_nil_r. split; reflexivity. }
  destruct (Z.eqb_spec (Type_ token) RPAREN) as [Hr|Hr].
  { assert (Hisn : is_number token = false)
      by (unfold is_number; rewrite Hr; reflexivity).
    assert (Hiso : is_operator token = false)
      by (unfold is_operator; rewrite Hr; reflexivity).
    destruct (pop_to_lparen stack output) as [s0 o0] eqn:Hpop.
    destruct (pop_to_lparen_prefix _ _ _ _ Hpop) as (popped & Hs & Hout & Hp).
    destruct s0 as [|top s1]; [discriminate|].
    destruct (Z.eqb_spec (Type_ top) LPAREN) as [Htop|Htop]; simpl; [|discriminate].
    assert (Htn : is_number top = false)
      by (unfold is_number; rewrite Htop; reflexivity).
    assert (Hto : is_operator top = false)
      by (unfold is_operator; rewrite Htop; reflexivity).
    intros H. inversion H; subst.
    apply Forall_app in Hst. destruct Hst as (Hpo & Hst').
    inversion Hst' as [|? ? _ Hs1]; subst.
    destruct (filter_operators_all popped Hpo Hp) as (Hfo & Hfn).
    rewrite filter_app in Hnum. rewrite Hfn in Hnum.
    cbn [filter app] in Hnum. rewrite Htn in Hnum.
    unfold number_or_operator. rewrite Hisn, Hiso. cbn [orb].
    split; [exact Hs1|]. split; [exact Hnum|]. split.
    - rewrite !filter_app, Hfo. cbn [filter]. rewrite Hto.
      rewrite app_nil_r, <- app_assoc. reflexivity.
    - rewrite filter_app, Hfn, !app_nil_r. reflexivity. }
  assert (Hisn : is_number token = false)
    by (unfold is_number; apply Z.eqb_neq; exact Hn).
  assert (Hiso : is_operator token = false)
    by (unfold is_operator; apply Z.eqb_neq; exact Ho).
  intros H. inversion H; subst.
  cbn [filter]. unfold number_or_operator. rewrite Hisn, Hiso. cbn [orb].
  rewrite !app_nil_r. repeat split; try assumption. reflexivity.
Qed.

Lemma toPostfix_loop_keeps (tokens stack output stack' output' : list Token) :
  Forall is_operator_or_lparen stack ->
  filter is_number stack = [] ->
  toPostfix_loop tokens stack output = Ok (stack', output') ->
  Forall is_operator_or_lparen stack'
  /\ Permutation (output' ++ filter is_operator stack')
                 ((output ++ filter is_operator stack)
                  ++ filter number_or_operator tokens)
  /\ filter is_number output' = filter is_number output ++ filter is_number tokens.
Proof.
  revert stack output.
  induction tokens as [|token tokens IH]; intros stack output Hst Hnum H; simpl in H.
  - inversion H; subst. rewrite !app_nil_r. repeat split; auto.
  - destruct (toPostfix_token token stack output) as [[s1 o1]|e] eqn:Hstep;
      simpl in H; [|discriminate].
    destruct (toPostfix_token_keeps _ _ _ _ _ Hst Hnum Hstep)
      as (Hst1 & Hnum1 & Hperm1 & Hn1).
    destruct (IH _ _ Hst1 Hnum1 H) as (Hst' & Hperm & Hn).
    split; [exact Hst'|]. split.
    + eapply Permutation_trans; [exact Hperm|].
      change (token :: tokens) with ([token] ++ tokens).
      rewrite (filter_app _ [token] tokens), app_assoc.
      apply Permutation_app_tail. exact Hperm1.
    + rewrite Hn, Hn1.
      change (token :: tokens) with ([token] ++ tokens).
      rewrite (filter_app _ [token] tokens), app_assoc. reflexivity.
Qed.

Lemma toPostfix_keeps (tokens postfix : list Token) :
  toPostfix tokens = Ok postfix ->
  Permutation postfix (filter number_or_operator tokens)
  /\ filter is_number postfix = filter is_number tokens.
Proof.
  unfold toPostfix. intros H.
  destruct (toPostfix_loop tokens [] []) as [[s o]|e] eqn:Hl; simpl in H;
    [|discriminate].
  destruct (toPostfix_loop_keeps _ _ _ _ _ (Forall_nil _) eq_refl Hl)
    as (Hst & Hperm & Hn).
  destruct (pop_all_prefix _ _ _ H) as (-> & Hp).
  destruct (filter_operators_all s Hst Hp) as (Hfo & Hfn).
  rewrite Hfo in Hperm. simpl in Hperm, Hn.
  split; [exact Hperm|]. rewrite filter_app, Hfn, app_nil_r. exact Hn.
Qed.

(** ** Counting operands *)

Lemma apply_operator_known (text : string) (a b : float64) (stack stack' : list float64) :
  In text ["+"; "-"; "*"; "/"] ->
  apply_operator text a b stack = Ok stack' ->
  exists v, stack' = v :: stack.
Proof.
  intros [<-|[<-|[<-|[<-|[]]]]]; unfold apply_operator; simpl.
  - intros H. inversion H. eexists; reflexivity.
  - intros H. inversion H. eexists; reflexivity.
  - intros H. inversion H. eexists; reflexivity.
  - destruct (f64_eq b f64_zero); [discriminate|].
    intros H. inversion H. eexists; reflexivity.
Qed.

Lemma evaluate_token_count (token : Token) (stack stack' : list float64) :
  known_operator token ->
  evaluate_token token stack = Ok stack' ->
  (List.length stack' + List.length (filter is_operator [token])
   = List.length stack + List.length (filter is_number [token]))%nat.
Proof.
  intros Hk. unfold evaluate_token. cbn [filter]. unfold is_number, is_operator.
  destruct (Z.eqb_spec (Type_ token) NUMBER) as [Hn|Hn].
  { rewrite Hn. simpl. destruct (ParseFloat (Value token)); simpl; [|discriminate].
    intros H. inversion H. simpl. lia. }
  destruct (Z.eqb_spec (Type_ token) OPERATOR) as [Ho|Ho].
  { destruct stack as [|b [|a stack]]; try discriminate.
    intros H. destruct (apply_operator_known _ _ _ _ _ (Hk Ho) H) as (v & ->).
    simpl. lia. }
  intros H. inversion H. simpl. lia.
Qed.

Lemma evaluate_loop_count (tokens : list Token) (stack stack' : list float64) :
  Forall known_operator tokens ->
  evaluate_loop tokens stack = Ok stack' ->
  (List.length stack' + List.length (filter is_operator tokens)
   = List.length stack + List.length (filter is_number tokens))%nat.
Proof.
  intros Hk. revert stack.
  induction Hk as [|token tokens Ht _ IH]; intros stack H; simpl in H.
  - inversion H. simpl. lia.
  - destruct (evaluate_token token stack) as [s1|e] eqn:Hstep; simpl in H;
      [|discriminate].
    pose proof (evaluate_token_count _ _ _ Ht Hstep) as H1.
    pose proof (IH _ H) as H2.
    change (token :: tokens) with ([token] ++ tokens).
    rewrite !(filter_app _ [token] tokens), !length_app. lia.
Qed.

Lemma evaluatePostfix_count (tokens : list Token) (v : float64) :
  Forall known_operator tokens ->
  evaluatePostfix tokens = Ok v ->
  List.length (filter is_number tokens)
  = S (List.length (filter is_operator tokens)).
Proof.
  intros Hk. unfold evaluatePostfix. intros H.
  destruct (evaluate_loop tokens []) as [stack|e] eqn:Hl; simpl in H; [|discriminate].
  pose proof (evaluate_loop_count _ _ _ Hk Hl) as Hc.
  destruct stack as [|x [|y stack]]; try discriminate. simpl in Hc. lia.
Qed.

Lemma Permutation_filter_same {A : Type} (f : A -> bool) (l l' : list A) :
  Permutation l l' -> Permutation (filter f l) (filter f l').
Proof.
  induction 1 as [|x l l' _ IH|x y l|l l' l'' _ IH1 _ IH2]; simpl.
  - constructor.
  - destruct (f x); [constructor|]; exact IH.
  - destruct (f x), (f y); try reflexivity. constructor.
  - eapply Permutation_trans; eassumption.
Qed.

Lemma filter_operator_of_both (l : list Token) :
  filter is_operator (filter number_or_operator l) = filter is_operator l.
Proof.
  induction l as [|t l IH]; simpl; [reflexivity|].
  unfold number_or_operator at 1.
  destruct (is_operator t) eqn:Ho; simpl.
  - rewrite orb_true_r. simpl. rewrite Ho, IH. reflexivity.
  - destruct (is_number t); simpl; [rewrite Ho|]; exact IH.
Qed.

Lemma tokenized_known_operator (t : Token) :
  tokenized_token t -> known_operator t.
Proof.
  intros [(Hn & _)|[(_ & Hin)|[->| ->]]] Ho.
  - rewrite Hn in Ho. discriminate.
  - exact Hin.
  - discriminate.
  - discriminate.
Qed.

(** ** Tokens of no known type *)

Lemma toPostfix_loop_known (tokens stack output : list Token) :
  toPostfix_loop (filter known_type tokens) stack output
  = toPostfix_loop tokens stack output.
Proof.
  revert stack output.
  induction tokens as [|token tokens IH]; intros stack output; [reflexivity|].
  cbn [filter]. destruct (known_type token) eqn:Hk.
  - cbn [toPostfix_loop].
    destruct (toPostfix_token token stack output) as [[s o]|e]; simpl;
      [apply IH|reflexivity].
  - cbn [toPostfix_loop]. unfold known_type in Hk.
    apply orb_false_iff in Hk. destruct Hk as (Hk & Hr).
    apply orb_false_iff in Hk. destruct Hk as (Hk & Hl).
    apply orb_false_iff in Hk. destruct Hk as (Hn & Ho).
    unfold toPostfix_token. rewrite Hn, Ho, Hl, Hr. simpl. apply IH.
Qed.

Lemma evaluate_loop_numbers_operators (tokens : list Token) (stack : list float64) :
  evaluate_loop (filter number_or_operator tokens) stack
  = evaluate_loop tokens stack.
Proof.
  revert stack.
  induction tokens as [|token tokens IH]; intros stack; [reflexivity|].
  cbn [filter]. destruct (number_or_operator token) eqn:Hk.
  - cbn [evaluate_loop].
    destruct (evaluate_token token stack) as [s|e]; simpl; [apply IH|reflexivity].
  - cbn [evaluate_loop]. unfold number_or_operator, is_number, is_operator in Hk.
    apply orb_false_iff in Hk. destruct Hk as (Hn & Ho).
    unfold evaluate_token. rewrite Hn, Ho. simpl. apply IH.
Qed.

(** ** A lone literal *)

Lemma tokenize_decimal (s : string) :
  0 < len s -> is_decimal_text s = true -> tokenize s = Ok [num s].
Proof.
  intros Hlen Hdec. unfold tokenize, tokenize_runes.
  rewrite <- (string_app_nil_r s) at 1.
  rewrite range_runes_decimal by exact Hdec.
  rewrite tokenize_loop_decimal by exact Hdec. simpl.
  apply Z.ltb_lt in Hlen. rewrite Hlen. reflexivity.
Qed.

Lemma ParseFloat_decimal (s : string) :
  is_decimal_text s = true -> ParseFloat s = ParseDecimal s.
Proof. intros H. unfold ParseFloat. rewrite H. reflexivity. Qed.

Lemma ParseDecimal_error (s : string) (err : error) :
  ParseDecimal s = Err err -> exists k, err = ErrNumError s k.
Proof.
  unfold ParseDecimal.
  destruct (readFloat s false false 0 0) as [[m k]|].
  - destruct (is_infinity (f64_of_decimal m k)); [|discriminate].
    intros H. inversion H. eexists; reflexivity.
  - intros H. inversion H. eexists; reflexivity.
Qed.

(** * Further properties of the code *)

(** ** The tokenizer *)

(** X1: [tokenize] succeeds exactly on the inputs all of whose characters are
    valid, and its only error is the invalid-character error, carrying the
    first character of the input that is not valid. *)
Theorem tokenize_succeeds_iff_valid (input : string) :
  (forallb valid_rune (range_runes input) = true
   <-> exists tokens, tokenize input = Ok tokens)
  /\ (forall err, tokenize input = Err err ->
        exists pre c post,
          range_runes input = pre ++ c :: post
          /\ forallb valid_rune pre = true
          /\ valid_rune c = false
          /\ err = ErrInvalidCharacter c).
Proof.
  pose proof (tokenize_runes_result (range_runes input)) as H.
  fold (tokenize input) in H.
  split; [split|].
  - apply tokenize_runes_valid.
  - intros (tokens & Ht). rewrite Ht in H. exact H.
  - intros err Ht. rewrite Ht in H. exact H.
Qed.

(** X2: every token that [tokenize] returns is a number with a non-empty
    text of digits and points, an operator whose text is one of [+ - * /],
    the left parenthesis or the right parenthesis: the later stages meet no
    token type and no operator text that their [switch] statements lack. *)
Theorem tokenize_token_shapes (input : string) (tokens : list Token) :
  tokenize input = Ok tokens ->
  Forall tokenized_token tokens
  /\ Forall (fun t => known_type t = true /\ known_operator t) tokens.
Proof.
  intros H. pose proof (tokenize_runes_shapes _ _ H) as Hs.
  split; [exact Hs|].
  eapply Forall_impl; [|exact Hs]. intros t Ht.
  split; [|apply tokenized_known_operator; exact Ht].
  destruct Ht as [(Hn & _)|[(Ho & _)|[->| ->]]];
    unfold known_type; rewrite ?Hn, ?Ho; reflexivity.
Qed.

(** X3: [tokenize] drops nothing but blanks: the texts of the tokens it
    returns, put end to end, are the encoding of the characters of the input
    that are digits, points, operators or parentheses, in their order. *)
Theorem tokenize_keeps_text (input : string) (tokens : list Token) :
  tokenize input = Ok tokens ->
  token_values tokens = encode_runes (filter token_rune (range_runes input)).
Proof.
  unfold tokenize, tokenize_runes. intros H.
  destruct (tokenize_loop (range_runes input) [] EmptyString) as [[t n]|e] eqn:Hl;
    simpl in H; [|discriminate].
  pose proof (tokenize_loop_values _ _ _ _ _ Hl) as Hv. simpl in Hv.
  pose proof (flush_values t n) as Hf. unfold flush in Hf.
  destruct (0 <? len n) eqn:Hlen; inversion H; subst; simpl in Hf.
  - rewrite string_app_nil_r in Hf. rewrite Hf. exact Hv.
  - apply len_empty in Hlen. subst n. rewrite string_app_nil_r in Hv. exact Hv.
Qed.

(** X4: [tokenize] works piece by piece. An input cut at an operator or a
    parenthesis has the tokens of the left part, the token of that character,
    and the tokens of the right part; cut at a blank, the tokens of the two
    parts; an error of the left part comes first. *)
Theorem tokenize_splits (input left right : string) (c : rune) :
  range_runes input = range_runes left ++ c :: range_runes right ->
  (forall token, punctuation_token c = Some token ->
     tokenize input
     = (tl <- tokenize left ;; tr <- tokenize right ;; Ok (tl ++ token :: tr)))
  /\ (blank_rune c = true ->
      tokenize input
      = (tl <- tokenize left ;; tr <- tokenize right ;; Ok (tl ++ tr))).
Proof.
  intros H. unfold tokenize. rewrite H. split.
  - intros token Hc. apply tokenize_runes_split. exact Hc.
  - intros Hc. apply tokenize_runes_split_blank. exact Hc.
Qed.

(** X5: an input of blanks only, the empty input among them, has no token,
    and [calculate] fails on it with the invalid-expression error. *)
Theorem blank_input (input : string) :
  forallb blank_rune (range_runes input) = true ->
  tokenize input = Ok [] /\ calculate input = Err ErrInvalidExpression.
Proof.
  intros H.
  assert (Ht : tokenize input = Ok []) by (apply tokenize_runes_blanks; exact H).
  split; [exact Ht|]. unfold calculate. rewrite Ht. reflexivity.
Qed.

(** X6: [tokenize] reads back what is written: tokens that are decimal
    numbers, operators and parentheses, written one after the other with a
    blank after each, are the tokens of the text. *)
Theorem tokenize_reads_written (tokens : list Token) :
  Forall written_token tokens ->
  tokenize (write_tokens tokens) = Ok tokens.
Proof.
  intros H. unfold tokenize, tokenize_runes.
  rewrite (tokenize_loop_write_tokens tokens [] H). simpl. reflexivity.
Qed.

(** X15: an input that is a non-empty run of ASCII digits and points is one
    number token, and [calculate] returns what [strconv.ParseFloat] makes of
    it: its value, or its syntax or range error. *)
Theorem calculate_literal (s : string) :
  0 < len s -> is_decimal_text s = true ->
  tokenize s = Ok [num s] /\ calculate s = ParseDecimal s.
Proof.
  intros Hlen Hdec.
  assert (Ht : tokenize s = Ok [num s]) by (apply tokenize_decimal; assumption).
  split; [exact Ht|].
  unfold calculate. rewrite Ht. simpl.
  unfold evaluatePostfix. rewrite evaluate_loop_number.
  rewrite (ParseFloat_decimal s Hdec).
  destruct (ParseDecimal s); reflexivity.
Qed.

(** ** The converter *)

(** X7: [toPostfix] only reorders: its result holds the number and operator
    tokens of its input, each as often as the input does, and no other token;
    the numbers keep the order of the input. *)
Theorem toPostfix_reorders (tokens postfix : list Token) :
  toPostfix tokens = Ok postfix ->
  Permutation postfix (filter number_or_operator tokens)
  /\ filter is_number postfix = filter is_number tokens
  /\ List.length postfix = List.length (filter number_or_operator tokens).
Proof.
  intros H. destruct (toPostfix_keeps _ _ H) as (Hp & Hn).
  split; [exact Hp|]. split; [exact Hn|]. apply Permutation_length. exact Hp.
Qed.

(** X8: [toPostfix] is correct on every expression: the tokens of an
    expression built from numbers, the four operators and parentheses, with
    [*] and [/] binding tighter than [+] and [-] and chains leaning to the
    left, are converted to the postfix form of that expression. *)
Theorem toPostfix_correct (e : expr) :
  toPostfix (infix_expr e) = Ok (postfix_expr e).
Proof.
  destruct toPostfix_loop_expression as (_ & _ & Hexpr).
  unfold toPostfix.
  rewrite <- (app_nil_r (infix_expr e)), Hexpr by exact I.
  simpl. rewrite app_nil_r, pop_all_run.
  - rewrite <- postfix_expr_split. reflexivity.
  - eapply Forall_impl; [|apply pending_expr_operators]. simpl. intros p Hp. apply Hp.
Qed.

(** X14: neither loop has a default case: [toPostfix] skips a token whose
    type is none of the four constants, and [evaluatePostfix] skips every
    token that is neither a number nor an operator, parentheses included. *)
Theorem unknown_tokens_skipped (tokens : list Token) :
  toPostfix (filter known_type tokens) = toPostfix tokens
  /\ evaluatePostfix (filter number_or_operator tokens) = evaluatePostfix tokens.
Proof.
  split.
  - unfold toPostfix. rewrite toPostfix_loop_known. reflexivity.
  - unfold evaluatePostfix. rewrite evaluate_loop_numbers_operators. reflexivity.
Qed.

(** ** The evaluator *)

(** X9: [evaluatePostfix] is correct on the postfix form of every
    expression: it returns the value of the expression, operands evaluated
    from left to right, or the first error met on the way. *)
Theorem evaluatePostfix_correct (e : expr) :
  evaluatePostfix (postfix_expr e) = eval_expr e.
Proof.
  destruct evaluate_loop_expression as (_ & _ & Hexpr).
  unfold evaluatePostfix.
  rewrite <- (app_nil_r (postfix_expr e)), Hexpr.
  destruct (eval_expr e); reflexivity.
Qed.

(** X10: when [evaluatePostfix] succeeds on tokens whose operators are among
    the four, the tokens hold exactly one more number than operators. *)
Theorem evaluatePostfix_operand_count (tokens : list Token) (v : float64) :
  Forall known_operator tokens ->
  evaluatePostfix tokens = Ok v ->
  List.length (filter is_number tokens)
  = S (List.length (filter is_operator tokens)).
Proof.
  intros Hk. unfold evaluatePostfix. intros H.
  destruct (evaluate_loop tokens []) as [stack|e] eqn:Hl; simpl in H; [|discriminate].
  pose proof (evaluate_loop_count _ _ _ Hk Hl) as Hc.
  destruct stack as [|x [|y stack]]; try discriminate. simpl in Hc. lia.
Qed.

(** ** The pipeline *)

(** X11: [calculate] is correct from text to value: on an input whose tokens
    are those of an expression it returns the value of the expression, and
    every expression over decimal numbers, written out, is such an input. *)
Theorem calculate_correct (e : expr) :
  (forall input, tokenize input = Ok (infix_expr e) ->
                 calculate input = eval_expr e)
  /\ (decimal_numbers e ->
      calculate (write_tokens (infix_expr e)) = eval_expr e).
Proof.
  split.
  - intros input H. apply calculate_of_tokens. exact H.
  - intros Hdec. apply calculate_of_tokens.
    apply tokenize_write_tokens. apply infix_expr_written. exact Hdec.
Qed.

(** X12: on a written expression over decimal numbers [calculate] fails in
    two ways only: with the division-by-zero error, or with the error of
    [strconv.ParseFloat] on one of the numbers; the parenthesis and operand
    count errors do not occur. *)
Theorem calculate_expression_errors (e : expr) (err : error) :
  decimal_numbers e ->
  calculate (write_tokens (infix_expr e)) = Err err ->
  err = ErrDivisionByZero
  \/ exists text k, In (num text) (infix_expr e) /\ err = ErrNumError text k.
Proof.
  intros Hdec H.
  rewrite (calculate_of_tokens _ e) in H
    by (apply tokenize_write_tokens, infix_expr_written; exact Hdec).
  destruct eval_expression_errors as (_ & _ & He).
  destruct (He e err H) as [Hd|(text & Hin & Hp)]; [left; exact Hd|].
  right. destruct (Hdec text Hin) as (_ & Htext).
  rewrite (ParseFloat_decimal text Htext) in Hp.
  destruct (ParseDecimal_error _ _ Hp) as (k & ->).
  exists text, k. auto.
Qed.

(** X13: [calculate] succeeds only on an input whose parentheses are
    balanced and that holds exactly one more number than operators. *)
Theorem calculate_success_shape (input : string) (v : float64) :
  calculate input = Ok v ->
  exists tokens,
    tokenize input = Ok tokens
    /\ balanced tokens = true
    /\ List.length (filter is_number tokens)
       = S (List.length (filter is_operator tokens)).
Proof.
  unfold calculate. intros H.
  destruct (tokenize input) as [tokens|e] eqn:Htok; simpl in H; [|discriminate].
  destruct (toPostfix tokens) as [postfix|e] eqn:Hpost; simpl in H; [|discriminate].
  exists tokens. split; [reflexivity|].
  pose proof (toPostfix_from_spec tokens [] []) as Hs.
  change (toPostfix_from tokens [] []) with (toPostfix tokens) in Hs.
  rewrite Hpost in Hs. destruct Hs as (Hbal & _).
  split; [exact Hbal|].
  destruct (toPostfix_keeps _ _ Hpost) as (Hperm & Hnum).
  assert (Hk : Forall known_operator postfix).
  { apply Forall_forall. intros t Hin.
    apply tokenized_known_operator.
    pose proof (tokenize_runes_shapes _ _ Htok) as Hsh.
    rewrite Forall_forall in Hsh. apply Hsh.
    apply (Permutation_in _ Hperm) in Hin.
    apply filter_In in Hin. apply Hin. }
  pose proof (evaluatePostfix_count _ _ Hk H) as Hc.
  rewrite Hnum in Hc. rewrite Hc. f_equal.
  rewrite <- (filter_operator_of_both tokens).
  apply Permutation_length. apply Permutation_filter_same. exact Hperm.
Qed.

(** ** The errors of the pipeline *)

Lemma is_decimal_text_app (a b : string) :
  is_decimal_text (a ++ b) = is_decimal_text a && is_decimal_text b.
Proof.
  induction a as [|c a IH]; simpl; [reflexivity|].
  rewrite IH, andb_assoc. reflexivity.
Qed.

Lemma latin1_number_rune (r : rune) :
  (r <=? MaxLatin1) = true -> number_rune r = true ->
  is_decimal_text (EncodeRune r) = true.
Proof.
  unfold number_rune, IsDigit. intros Hl Hn. rewrite Hl in Hn.
  assert (Hr : r = 46 \/ r = 48 \/ r = 49 \/ r = 50 \/ r = 51 \/ r = 52
               \/ r = 53 \/ r = 54 \/ r = 55 \/ r = 56 \/ r = 57).
  { apply orb_true_iff in Hn. destruct Hn as [Hd|Hp].
    - apply andb_true_iff in Hd. destruct Hd as (H0 & H9).
      apply Z.leb_le in H0, H9. change (rune_of "0") with 48 in H0.
      change (rune_of "9") with 57 in H9. lia.
    - apply Z.eqb_eq in Hp. left. exact Hp. }
  repeat (destruct Hr as [->|Hr]; [reflexivity|]). subst r. reflexivity.
Qed.

Lemma tokenize_rune_decimal (r : rune) (tokens tokens' : list Token)
      (numBuilder numBuilder' : string) :
  (r <=? MaxLatin1) = true ->
  Forall decimal_token tokens -> is_decimal_text numBuilder = true ->
  tokenize_rune r tokens numBuilder = Ok (tokens', numBuilder') ->
  Forall decimal_token tokens' /\ is_decimal_text numBuilder' = true.
Proof.
  intros Hl Ht Hn. unfold tokenize_rune.
  assert (Hf : Forall decimal_token (fst (flush tokens numBuilder))).
  { unfold flush. destruct (0 <? len numBuilder); simpl; [|exact Ht].
    apply Forall_snoc; [exact Ht|]. intros _. exact Hn. }
  pose proof (flush_snd tokens numBuilder) as Hs.
  destruct (flush tokens numBuilder) as [ft fn]. simpl in Hf, Hs. subst fn.
  assert (Hother : forall ty v, ty <> NUMBER -> decimal_token (mkToken ty v))
    by (intros ty v Hne Hty; simpl in Hty; contradiction).
  destruct (IsDigit r || (r =? rune_of ".")) eqn:Hnum.
  { intros H. inversion H; subst. split; [exact Ht|].
    rewrite is_decimal_text_app, Hn. simpl.
    apply latin1_number_rune; [exact Hl|exact Hnum]. }
  destruct (ContainsRune "+-*/" r).
  { intros H. inversion H; subst. split; [|reflexivity].
    apply Forall_snoc; [exact Hf|]. apply Hother. discriminate. }
  destruct (r =? rune_of "(").
  { intros H. inversion H; subst. split; [|reflexivity].
    apply Forall_snoc; [exact Hf|]. apply Hother. discriminate. }
  destruct (r =? rune_of ")").
  { intros H. inversion H; subst. split; [|reflexivity].
    apply Forall_snoc; [exact Hf|]. apply Hother. discriminate. }
  destruct (IsSpace r).
  { intros H. inversion H; subst. split; [exact Hf|reflexivity]. }
  discriminate.
Qed.

Lemma tokenize_latin1_decimal (input : string) (tokens : list Token) :
  forallb (fun r => r <=? MaxLatin1) (range_runes input) = true ->
  tokenize input = Ok tokens ->
  Forall decimal_token tokens.
Proof.
  unfold tokenize, tokenize_runes. generalize (range_runes input) as rs.
  intros rs Hl.
  assert (Hloop : forall t n t' n',
             Forall decimal_token t -> is_decimal_text n = true ->
             tokenize_loop rs t n = Ok (t', n') ->
             Forall decimal_token t' /\ is_decimal_text n' = true).
  { induction rs as [|r rs IH]; intros t n t' n' Ht Hn H; simpl in H.
    - inversion H; subst. auto.
    - simpl in Hl. apply andb_true_iff in Hl. destruct Hl as (Hr & Hrs).
      destruct (tokenize_rune r t n) as [[t1 n1]|e] eqn:Hstep; simpl in H;
        [|discriminate].
      destruct (tokenize_rune_decimal _ _ _ _ _ Hr Ht Hn Hstep) as (Ht1 & Hn1).
      exact (IH Hrs _ _ _ _ Ht1 Hn1 H). }
  intros H.
  destruct (tokenize_loop rs [] EmptyString) as [[t n]|e] eqn:Hlp; simpl in H;
    [|discriminate].
  destruct (Hloop [] EmptyString t n (Forall_nil _) eq_refl Hlp) as (Ht & Hn).
  destruct (0 <? len n); inversion H; subst; [|exact Ht].
  apply Forall_snoc; [exact Ht|]. intros _. exact Hn.
Qed.

Lemma evaluate_token_error (token : Token) (stack : list float64) (err : error) :
  known_operator token -> decimal_token token ->
  evaluate_token token stack = Err err ->
  evaluation_error err.
Proof.
  intros Hk Hd. unfold evaluate_token.
  destruct (Z.eqb_spec (Type_ token) NUMBER) as [Hn|Hn].
  { rewrite (ParseFloat_decimal _ (Hd Hn)).
    destruct (ParseDecimal (Value token)) as [v|e] eqn:Hp; simpl; [discriminate|].
    intros H. inversion H; subst.
    destruct (ParseDecimal_error _ _ Hp) as (k & ->).
    left. exists (Value token), k. reflexivity. }
  destruct (Z.eqb_spec (Type_ token) OPERATOR) as [Ho|Ho]; [|discriminate].
  specialize (Hk Ho).
  destruct stack as [|b [|a stack]].
  - intros H. inversion H. right. left. exists (Value token). auto.
  - intros H. inversion H. right. left. exists (Value token). auto.
  - unfold apply_operator.
    destruct (Value token =? "+")%string; [discriminate|].
    destruct (Value token =? "-")%string; [discriminate|].
    destruct (Value token =? "*")%string; [discriminate|].
    destruct (Value token =? "/")%string; [|discriminate].
    destruct (f64_eq b f64_zero); [|discriminate].
    intros H. inversion H. right. right. reflexivity.
Qed.

Lemma evaluatePostfix_error (tokens : list Token) (err : error) :
  Forall (fun t => known_operator t /\ decimal_token t) tokens ->
  evaluatePostfix tokens = Err err ->
  evaluation_error err \/ err = ErrInvalidExpression.
Proof.
  intros Hall. unfold evaluatePostfix.
  assert (Hloop : forall stack, evaluate_loop tokens stack = Err err ->
                                evaluation_error err).
  { induction Hall as [|token tokens (Hk & Hd) _ IH]; intros stack H; simpl in H.
    - discriminate.
    - destruct (evaluate_token token stack) as [s1|e] eqn:Hstep; simpl in H.
      + exact (IH _ H).
      + inversion H; subst. exact (evaluate_token_error _ _ _ Hk Hd Hstep). }
  destruct (evaluate_loop tokens []) as [stack|e] eqn:Hl; simpl.
  - destruct stack as [|x [|y stack]]; intros H; inversion H; right; reflexivity.
  - intros H. inversion H; subst. left. exact (Hloop _ Hl).
Qed.

(** The stage at which [calculate] fails. *)
Lemma calculate_error_stage (input : string) (err : error) :
  calculate input = Err err ->
  tokenize input = Err err
  \/ (exists tokens, tokenize input = Ok tokens /\ toPostfix tokens = Err err)
  \/ (exists tokens postfix,
        tokenize input = Ok tokens /\ toPostfix tokens = Ok postfix
        /\ evaluatePostfix postfix = Err err).
Proof.
  unfold calculate. intros H.
  destruct (tokenize input) as [tokens|e]; simpl in H;
    [|left; inversion H; reflexivity].
  destruct (toPostfix tokens) as [postfix|e] eqn:Hp; simpl in H.
  - right. right. exists tokens, postfix. auto.
  - right. left. exists tokens. inversion H; subst. auto.
Qed.

(** X16: on an input of Latin-1 characters, [calculate] fails with one of six
    errors and no other: an invalid character of the input, mismatched
    parentheses, a number that [strconv.ParseFloat] refuses, one of the four
    operators short of operands, a division by zero, or an invalid
    expression. *)
Theorem calculate_errors (input : string) (err : error) :
  forallb (fun r => r <=? MaxLatin1) (range_runes input) = true ->
  calculate input = Err err ->
  (exists c, In c (range_runes input) /\ valid_rune c = false
             /\ err = ErrInvalidCharacter c)
  \/ err = ErrMismatchedParentheses
  \/ (exists text k, err = ErrNumError text k)
  \/ (exists o, In o ["+"; "-"; "*"; "/"] /\ err = ErrNotEnoughOperands o)
  \/ err = ErrDivisionByZero
  \/ err = ErrInvalidExpression.
Proof.
  intros Hl H.
  destruct (calculate_error_stage _ _ H)
    as [Ht|[(tokens & Ht & Hp)|(tokens & postfix & Ht & Hp & He)]].
  - left. pose proof (tokenize_runes_result (range_runes input)) as Hr.
    fold (tokenize input) in Hr. rewrite Ht in Hr.
    destruct Hr as (pre & c & post & Heq & _ & Hc & ->).
    exists c. split; [|auto]. rewrite Heq. apply in_or_app. right. left. reflexivity.
  - right. left.
    pose proof (toPostfix_from_spec tokens [] []) as Hs.
    change (toPostfix_from tokens [] []) with (toPostfix tokens) in Hs.
    rewrite Hp in Hs. apply Hs.
  - right. right.
    assert (Hall : Forall (fun t => known_operator t /\ decimal_token t) postfix).
    { pose proof (tokenize_runes_shapes _ _ Ht) as Hsh.
      pose proof (tokenize_latin1_decimal _ _ Hl Ht) as Hdec.
      rewrite Forall_forall in Hsh, Hdec.
      destruct (toPostfix_keeps _ _ Hp) as (Hperm & _).
      apply Forall_forall. intros t Hin.
      apply (Permutation_in _ Hperm) in Hin. apply filter_In in Hin.
      destruct Hin as (Hin & _).
      split; [apply tokenized_known_operator, Hsh, Hin|apply Hdec, Hin]. }
    destruct (evaluatePostfix_error _ _ Hall He) as [[Hn|[Ho|Hd]]|Hi]; auto 10.
Qed.

(** X17: the errors come in the order of the stages: an invalid character
    anywhere in the input is reported whatever the rest is, and unbalanced
    parentheses are reported before any error of the evaluation. *)
Theorem calculate_error_priority (input : string) :
  (forall err, tokenize input = Err err -> calculate input = Err err)
  /\ (forall tokens, tokenize input = Ok tokens -> balanced tokens = false ->
                     calculate input = Err ErrMismatchedParentheses).
Proof.
  split.
  - intros err H. unfold calculate. rewrite H. reflexivity.
  - intros tokens H Hb. unfold calculate. rewrite H. simpl.
    pose proof (toPostfix_from_spec tokens [] []) as Hs.
    change (toPostfix_from tokens [] []) with (toPostfix tokens) in Hs.
    change (balanced_from (count_lparen []) tokens) with (balanced tokens) in Hs.
    destruct (toPostfix tokens) as [postfix|e].
    + destruct Hs as (Hs & _). congruence.
    + destruct Hs as (-> & _). reflexivity.
Qed.

(** ** Precedence *)

(** C1: [calculate] applies the usual precedence and lets parentheses
    override it: ["2 + 3 * 4"] is 14, ["(2 + 3) * 4"] is 20 and
    ["2 * 3 + 4"] is 10; [+] and [-] have precedence 1, [*] and [/]
    precedence 2. In the converter an incoming operator of higher precedence
    than the one stacked before it is stacked above it and leaves first; an
    incoming operator of lower or equal precedence first pops the stacked
    one to the output; a parenthesized group is emitted whole before the
    operator that follows it. For every expression of the grammar the
    converter yields its postfix form, and [calculate] its value. *)
Theorem calculate_precedence :
  calculate "2 + 3 * 4" = Ok (f64_of_Z 14)
  /\ calculate "(2 + 3) * 4" = Ok (f64_of_Z 20)
  /\ (precedence "+" = 1 /\ precedence "-" = 1
      /\ precedence "*" = 2 /\ precedence "/" = 2)
  /\ tokenize "2 + 3 * 4" = Ok [num "2"; op "+"; num "3"; op "*"; num "4"]
  /\ toPostfix [num "2"; op "+"; num "3"; op "*"; num "4"]
     = Ok [num "2"; num "3"; num "4"; op "*"; op "+"]
  /\ tokenize "(2 + 3) * 4"
     = Ok [lparen; num "2"; op "+"; num "3"; rparen; op "*"; num "4"]
  /\ (forall a b c o1 o2 : string,
        toPostfix [lparen; num a; op o1; num b; rparen; op o2; num c]
        = Ok [num a; num b; op o1; num c; op o2])
  /\ (forall a b c : string,
        toPostfix [num a; op "+"; num b; op "*"; num c]
        = Ok [num a; num b; num c; op "*"; op "+"])
  /\ calculate "2 * 3 + 4" = Ok (f64_of_Z 10)
  /\ calculate "2 * (3 + 4 * 5) - 6 / 3" = Ok (f64_of_Z 44)
  /\ toPostfix [num "2"; op "*"; num "3"; op "+"; num "4"]
     = Ok [num "2"; num "3"; op "*"; num "4"; op "+"]
  /\ (forall a b c o1 o2 : string,
        precedence o1 < precedence o2 ->
        toPostfix [num a; op o1; num b; op o2; num c]
        = Ok [num a; num b; num c; op o2; op o1])
  /\ (forall a b c o1 o2 : string,
        precedence o2 <= precedence o1 ->
        toPostfix [num a; op o1; num b; op o2; num c]
        = Ok [num a; num b; op o1; num c; op o2])
  /\ (forall (token top below : Token) (stack output : list Token),
        Type_ top = OPERATOR -> Type_ below <> OPERATOR ->
        precedence (Value token) <= precedence (Value top) ->
        pop_operators token (top :: below :: stack) output
        = (below :: stack, output ++ [top]))
  /\ (forall (token top : Token) (stack output : list Token),
        precedence (Value top) < precedence (Value token) ->
        pop_operators token (top :: stack) output = (top :: stack, output))
  /\ (forall e : expr, toPostfix (infix_expr e) = Ok (postfix_expr e))
  /\ (forall (e : expr) (input : string),
        tokenize input = Ok (infix_expr e) -> calculate input = eval_expr e).
Proof.
  split; [vm_compute; reflexivity|].
  split; [vm_compute; reflexivity|].
  split; [repeat split; reflexivity|].
  split; [vm_compute; reflexivity|].
  split; [reflexivity|].
  split; [vm_compute; reflexivity|].
  split; [exact toPostfix_grouped|].
  split; [intros a b c; apply toPostfix_tighter_second; reflexivity|].
  split; [vm_compute; reflexivity|].
  split; [vm_compute; reflexivity|].
  split; [reflexivity|].
  split; [exact toPostfix_tighter_second|].
  split; [exact toPostfix_left_first|].
  split.
  { intros token top below stack output Htop Hbelow Hprec.
    rewrite pop_operators_pop by assumption.
    simpl. apply Z.eqb_neq in Hbelow. rewrite Hbelow. reflexivity. }
  split; [exact pop_operators_keep|].
  split; [exact toPostfix_infix_expr|].
  intros e input H. apply calculate_of_tokens. exact H.
Qed.

End Calculator.

(** * Determinism

    Two runs of [calculate] may differ in what the program does not control:
    the order in which each run's [precedence] map holds its entries, and
    what the runtime's tables say of characters that are not in the input.
    They return the same result all the same. *)

Lemma map_index_in (m : list (string * Z)) (key : string) (v : Z) :
  NoDup (map fst m) -> In (key, v) m -> map_index m key = v.
Proof.
  induction m as [|[k w] m IH]; intros Hnd Hin; [destruct Hin|].
  simpl in Hnd. inversion Hnd as [|? ? Hk Hm]; subst. simpl.
  destruct (String.eqb_spec k key) as [->|Hne].
  - destruct Hin as [Heq|Hin]; [inversion Heq; reflexivity|].
    exfalso. apply Hk. apply in_map_iff. exists (key, v). auto.
  - destruct Hin as [Heq|Hin]; [inversion Heq; contradiction|].
    apply IH; assumption.
Qed.

Lemma map_index_absent (m : list (string * Z)) (key : string) :
  ~ In key (map fst m) -> map_index m key = 0.
Proof.
  induction m as [|[k w] m IH]; intros Hn; [reflexivity|]. simpl.
  destruct (String.eqb_spec k key) as [->|Hne].
  - exfalso. apply Hn. left. reflexivity.
  - apply IH. intros Hin. apply Hn. right. exact Hin.
Qed.

(** A lookup does not see the order of the entries, the keys being distinct. *)
Lemma map_index_permutation (m m' : list (string * Z)) (key : string) :
  NoDup (map fst m) -> Permutation m m' ->
  map_index m key = map_index m' key.
Proof.
  intros Hnd Hp.
  assert (Hnd' : NoDup (map fst m'))
    by (eapply Permutation_NoDup; [apply Permutation_map; exact Hp|exact Hnd]).
  destruct (in_dec string_dec key (map fst m)) as [Hin|Hout].
  - apply in_map_iff in Hin. destruct Hin as ([k v] & Hk & Hin).
    simpl in Hk. subst k.
    rewrite (map_index_in m key v Hnd Hin).
    symmetry. apply map_index_in; [exact Hnd'|].
    eapply Permutation_in; eassumption.
  - rewrite (map_index_absent m key Hout).
    symmetry. apply map_index_absent. intros Hin. apply Hout.
    eapply Permutation_in; [apply Permutation_sym, Permutation_map; exact Hp|].
    exact Hin.
Qed.

Lemma precedence_map_keys : NoDup (map fst precedence_map).
Proof.
  simpl. repeat constructor; simpl; intuition discriminate.
Qed.

Lemma precedence_any_order (m : list (string * Z)) (key : string) :
  Permutation m precedence_map -> map_index m key = precedence key.
Proof.
  intros Hp. unfold precedence. symmetry.
  apply map_index_permutation; [exact precedence_map_keys|].
  apply Permutation_sym. exact Hp.
Qed.

Lemma pop_operators_any_order (m : list (string * Z)) (token : Token)
      (stack output : list Token) :
  Permutation m precedence_map ->
  pop_operators_in m token stack output = pop_operators token stack output.
Proof.
  intros Hp. revert output.
  induction stack as [|top stack IH]; intros output; simpl; [reflexivity|].
  rewrite !(precedence_any_order m _ Hp), IH. reflexivity.
Qed.

Lemma toPostfix_any_order (m : list (string * Z)) (tokens : list Token) :
  Permutation m precedence_map ->
  toPostfix_in m tokens = toPostfix tokens.
Proof.
  intros Hp. unfold toPostfix_in, toPostfix.
  assert (Hloop : forall stack output,
             toPostfix_loop_in m tokens stack output
             = toPostfix_loop tokens stack output).
  { induction tokens as [|token tokens IH]; intros stack output; simpl;
      [reflexivity|].
    unfold toPostfix_token_in, toPostfix_token.
    rewrite (pop_operators_any_order m token stack output Hp).
    destruct (Type_ token =? NUMBER); simpl; [apply IH|].
    destruct (Type_ token =? OPERATOR).
    { destruct (pop_operators token stack output); simpl. apply IH. }
    destruct (Type_ token =? LPAREN); simpl; [apply IH|].
    destruct (Type_ token =? RPAREN); [|simpl; apply IH].
    destruct (pop_to_lparen stack output) as [[|top s] o]; simpl; [reflexivity|].
    destruct (negb (Type_ top =? LPAREN)); simpl; [reflexivity|apply IH]. }
  rewrite Hloop. reflexivity.
Qed.

(** The tokenizer asks the tables about the runes of the input only. *)
Lemma tokenize_rune_same_tables (D1 S1 D2 S2 : rune -> bool) (r : rune)
      (tokens : list Token) (numBuilder : string) :
  D1 r = D2 r -> S1 r = S2 r ->
  tokenize_rune D1 S1 r tokens numBuilder = tokenize_rune D2 S2 r tokens numBuilder.
Proof.
  intros HD HS. unfold tokenize_rune, IsDigit, IsSpace. rewrite HD, HS. reflexivity.
Qed.

Lemma tokenize_loop_same_tables (D1 S1 D2 S2 : rune -> bool) (rs : list rune)
      (tokens : list Token) (numBuilder : string) :
  (forall r, In r rs -> D1 r = D2 r /\ S1 r = S2 r) ->
  tokenize_loop D1 S1 rs tokens numBuilder = tokenize_loop D2 S2 rs tokens numBuilder.
Proof.
  revert tokens numBuilder.
  induction rs as [|r rs IH]; intros tokens numBuilder H; simpl; [reflexivity|].
  destruct (H r (or_introl eq_refl)) as (HD & HS).
  rewrite (tokenize_rune_same_tables D1 S1 D2 S2 r tokens numBuilder HD HS).
  destruct (tokenize_rune D2 S2 r tokens numBuilder) as [[t n]|e]; simpl;
    [|reflexivity].
  apply IH. intros r' Hin. apply H. right. exact Hin.
Qed.

Lemma evaluate_loop_same_parser (P1 P2 : string -> result float64)
      (tokens : list Token) (stack : list float64) :
  (forall s, P1 s = P2 s) ->
  evaluate_loop P1 tokens stack = evaluate_loop P2 tokens stack.
Proof.
  intros HP. revert stack.
  induction tokens as [|token tokens IH]; intros stack; simpl; [reflexivity|].
  assert (Hstep : evaluate_token P1 token stack = evaluate_token P2 token stack).
  { unfold evaluate_token, ParseFloat. rewrite HP. reflexivity. }
  rewrite Hstep. destruct (evaluate_token P2 token stack); simpl;
    [apply IH|reflexivity].
Qed.

Lemma calculate_any_order (D S : rune -> bool) (P : string -> result float64)
      (m : list (string * Z)) (input : string) :
  Permutation m precedence_map ->
  calculate_in D S P m input = calculate D S P input.
Proof.
  intros Hp. unfold calculate_in, calculate.
  destruct (tokenize D S input) as [tokens|e]; simpl; [|reflexivity].
  rewrite (toPostfix_any_order m tokens Hp). reflexivity.
Qed.

Lemma calculate_same_runtime (D1 S1 D2 S2 : rune -> bool)
      (P1 P2 : string -> result float64) (input : string) :
  (forall r, In r (range_runes input) -> D1 r = D2 r /\ S1 r = S2 r) ->
  (forall s, P1 s = P2 s) ->
  calculate D1 S1 P1 input = calculate D2 S2 P2 input.
Proof.
  intros Hrunes HP. unfold calculate, tokenize, tokenize_runes.
  rewrite (tokenize_loop_same_tables D1 S1 D2 S2 _ [] EmptyString Hrunes).
  destruct (tokenize_loop D2 S2 (range_runes input) [] EmptyString)
    as [[t n]|e]; simpl; [|reflexivity].
  assert (Heval : forall postfix,
             evaluatePostfix P1 postfix = evaluatePostfix P2 postfix).
  { intros postfix. unfold evaluatePostfix.
    rewrite (evaluate_loop_same_parser P1 P2 postfix [] HP). reflexivity. }
  destruct (0 <? len n); simpl.
  - destruct (toPostfix (t ++ [mkToken NUMBER n])); simpl; [apply Heval|reflexivity].
  - destruct (toPostfix t); simpl; [apply Heval|reflexivity].
Qed.

(** C9: [calculate] is deterministic: two runs on the same input return the
    same result, the same value or the same error, whatever order each run's
    [precedence] map holds its entries in and whatever the runtime's tables
    hold for characters that do not occur in the input; the result is that of
    [calculate], which reads the map by lookup only and keeps nothing from
    one call to the next. *)
Theorem calculate_deterministic
        (D1 S1 D2 S2 : rune -> bool) (P1 P2 : string -> result float64)
        (m1 m2 : list (string * Z)) (input : string) (r1 r2 : result float64) :
  Permutation m1 precedence_map ->
  Permutation m2 precedence_map ->
  (forall r, In r (range_runes input) -> D1 r = D2 r /\ S1 r = S2 r) ->
  (forall s, P1 s = P2 s) ->
  calculate_in D1 S1 P1 m1 input = r1 ->
  calculate_in D2 S2 P2 m2 input = r2 ->
  r1 = r2 /\ r1 = calculate D1 S1 P1 input.
Proof.
  intros Hm1 Hm2 Hrunes HP H1 H2.
  rewrite (calculate_any_order D1 S1 P1 m1 input Hm1) in H1.
  rewrite (calculate_any_order D2 S2 P2 m2 input Hm2) in H2.
  rewrite (calculate_same_runtime D1 S1 D2 S2 P1 P2 input Hrunes HP) in H1.
  split; [congruence|].
  rewrite <- H1. symmetry.
  apply calculate_same_runtime; assumption.
Qed.

(** * The theorems at work

    The program run with the tables of Unicode 15.0. *)

Lemma calculate_left_associative_witness :
  In "-" ["+"; "-"; "*"; "/"]
  /\ precedence "-" = precedence "-"
  /\ toPostfix [num "8"; op "-"; num "3"; op "-"; num "2"]
     = Ok [num "8"; num "3"; op "-"; num "2"; op "-"].
Proof.
  assert (Hin : In "-" ["+"; "-"; "*"; "/"]) by (simpl; auto).
  split; [exact Hin|]. split; [reflexivity|].
  destruct (calculate_left_associative Digit15 White_Space15 ParseOther_refuse)
    as (_ & _ & _ & _ & H).
  exact (H "8" "3" "2" "-" "-" Hin Hin eq_refl).
Defined.

Lemma division_by_zero_witness :
  evaluate_loop ParseOther_refuse [num "5"; num "0"] []
  = Ok [S754_zero false; f64_of_Z 5]
  /\ f64_eq (S754_zero false) f64_zero = true
  /\ evaluatePostfix ParseOther_refuse ([num "5"; num "0"] ++ op "/" :: [])
     = Err ErrDivisionByZero.
Proof.
  assert (Hpre : evaluate_loop ParseOther_refuse [num "5"; num "0"] []
                 = Ok [S754_zero false; f64_of_Z 5])
    by (vm_compute; reflexivity).
  split; [exact Hpre|]. split; [reflexivity|].
  exact (proj1 (proj2 (division_by_zero Digit15 White_Space15 ParseOther_refuse
                         [num "5"; num "0"] [] (op "/")
                         (f64_of_Z 5) (S754_zero false) []
                         eq_refl eq_refl Hpre eq_refl))).
Defined.

(** The claim on number texts as the specification words it fails on
    ["1.2.3"], a single number token with two decimal points. *)
Lemma number_text_two_points :
  ~ (forall (input : string) (tokens : list Token) (t : Token),
       tokenize Digit15 White_Space15 input = Ok tokens ->
       In t tokens -> Type_ t = NUMBER ->
       spec_number_text (Value t) = true).
Proof.
  intros H.
  assert (Htok : tokenize Digit15 White_Space15 "1.2.3" = Ok [num "1.2.3"])
    by (vm_compute; reflexivity).
  specialize (H "1.2.3" [num "1.2.3"] (num "1.2.3") Htok (or_introl eq_refl) eq_refl).
  vm_compute in H. discriminate H.
Qed.

Lemma tokenize_number_texts_witness :
  tokenize Digit15 White_Space15 "12.5+1.2.3" = Ok [num "12.5"; op "+"; num "1.2.3"]
  /\ 0 < len "1.2.3"
  /\ exists rs : list rune,
       rs <> []
       /\ forallb (number_rune Digit15) rs = true
       /\ "1.2.3" = encode_runes rs.
Proof.
  assert (Htok : tokenize Digit15 White_Space15 "12.5+1.2.3"
                 = Ok [num "12.5"; op "+"; num "1.2.3"])
    by (vm_compute; reflexivity).
  split; [exact Htok|].
  apply (tokenize_number_texts Digit15 White_Space15 "12.5+1.2.3"
           [num "12.5"; op "+"; num "1.2.3"] (num "1.2.3") Htok).
  - simpl. auto.
  - reflexivity.
Defined.

Lemma mismatched_parentheses_witness :
  count_lparen [lparen] <> O
  /\ pop_all [lparen] [num "1"] = Err ErrMismatchedParentheses
  /\ (toPostfix [lparen; num "1"] = Err ErrMismatchedParentheses
      <-> balanced [lparen; num "1"] = false).
Proof.
  assert (Hc : count_lparen [lparen] <> O) by discriminate.
  destruct (mismatched_parentheses Digit15 White_Space15 ParseOther_refuse
              [lparen; num "1"]) as (Hiff & _ & _ & Hend & _).
  split; [exact Hc|]. split; [exact (Hend [lparen] [num "1"] Hc)|exact Hiff].
Defined.

(** The claim on operand counts fails on ["+ 1 2"]: the converter moves the
    leading operator behind both numbers, and the evaluation succeeds. *)
Lemma leading_operator_two_operands :
  calculate Digit15 White_Space15 ParseOther_refuse "+ 1 2" = Ok (f64_of_Z 3)
  /\ ~ (exists o : string,
          calculate Digit15 White_Space15 ParseOther_refuse "+ 1 2"
          = Err (ErrNotEnoughOperands o)).
Proof.
  assert (H : calculate Digit15 White_Space15 ParseOther_refuse "+ 1 2"
              = Ok (f64_of_Z 3)) by (vm_compute; reflexivity).
  split; [exact H|]. intros (o & Ho). rewrite H in Ho. discriminate Ho.
Qed.

Lemma operand_count_errors_witness :
  evaluate_loop ParseOther_refuse [num "1"] [] = Ok [f64_of_Z 1]
  /\ (List.length [f64_of_Z 1] < 2)%nat
  /\ evaluatePostfix ParseOther_refuse ([num "1"] ++ op "+" :: [])
     = Err (ErrNotEnoughOperands "+")
  /\ calculate Digit15 White_Space15 ParseOther_refuse "+ 1 2" = Ok (f64_of_Z 3).
Proof.
  assert (Hpre : evaluate_loop ParseOther_refuse [num "1"] [] = Ok [f64_of_Z 1])
    by (vm_compute; reflexivity).
  assert (Hlen : (List.length [f64_of_Z 1] < 2)%nat) by (simpl; lia).
  destruct (operand_count_errors Digit15 White_Space15 ParseOther_refuse
              [num "1"] [] (op "+") [f64_of_Z 1] Hpre)
    as (Hop & _ & _ & _ & _ & _ & _ & Hex).
  split; [exact Hpre|]. split; [exact Hlen|].
  split; [exact (Hop eq_refl Hlen)|exact Hex].
Defined.

Lemma invalid_character_witness :
  (exists r, In r (range_runes "2 + a")
             /\ valid_rune Digit15 White_Space15 r = false)
  /\ exists pre c post,
       range_runes "2 + a" = pre ++ c :: post
       /\ forallb (valid_rune Digit15 White_Space15) pre = true
       /\ valid_rune Digit15 White_Space15 c = false
       /\ tokenize Digit15 White_Space15 "2 + a" = Err (ErrInvalidCharacter c)
       /\ calculate Digit15 White_Space15 ParseOther_refuse "2 + a"
          = Err (ErrInvalidCharacter c).
Proof.
  assert (H : exists r, In r (range_runes "2 + a")
                        /\ valid_rune Digit15 White_Space15 r = false).
  { exists (rune_of "a"). split; [vm_compute; auto 6|vm_compute; reflexivity]. }
  split; [exact H|].
  exact (proj1 (invalid_character Digit15 White_Space15 ParseOther_refuse "2 + a" H)).
Defined.

Lemma whitespace_insensitive_witness :
  IsSpace White_Space15 (rune_of " ") = true
  /\ IsDigit Digit15 (rune_of " ") = false
  /\ range_runes "1 +1" = [rune_of "1"] ++ rune_of " " :: [rune_of "+"; rune_of "1"]
  /\ range_runes "1+1" = [rune_of "1"] ++ [rune_of "+"; rune_of "1"]
  /\ tokenize Digit15 White_Space15 "1 +1" = tokenize Digit15 White_Space15 "1+1"
  /\ calculate Digit15 White_Space15 ParseOther_refuse "1 +1"
     = calculate Digit15 White_Space15 ParseOther_refuse "1+1".
Proof.
  assert (H1 : range_runes "1 +1"
               = [rune_of "1"] ++ rune_of " " :: [rune_of "+"; rune_of "1"])
    by (vm_compute; reflexivity).
  assert (H2 : range_runes "1+1" = [rune_of "1"] ++ [rune_of "+"; rune_of "1"])
    by (vm_compute; reflexivity).
  destruct (whitespace_insensitive Digit15 White_Space15 ParseOther_refuse
              "1 +1" "1+1" [rune_of "1"] [rune_of "+"; rune_of "1"] (rune_of " ")
              eq_refl eq_refl eq_refl H1 H2)
    as (_ & Htok & Hcalc & _).
  repeat split; assumption.
Defined.

Lemma toPostfix_only_numbers_and_operators_witness :
  toPostfix [lparen; num "1"; op "+"; num "2"; rparen]
  = Ok [num "1"; num "2"; op "+"]
  /\ Forall is_number_or_operator [num "1"; num "2"; op "+"]
  /\ (forall t, In t [num "1"; num "2"; op "+"] ->
                Type_ t <> LPAREN /\ Type_ t <> RPAREN).
Proof.
  assert (H : toPostfix [lparen; num "1"; op "+"; num "2"; rparen]
              = Ok [num "1"; num "2"; op "+"]) by reflexivity.
  split; [exact H|].
  exact (toPostfix_only_numbers_and_operators _ _ H).
Defined.

(** A digit outside ASCII is a number rune too: U+0663, ARABIC-INDIC DIGIT
    THREE, written D9 A3, makes a number token. *)
Example tokenize_unicode_digit :
  tokenize Digit15 White_Space15
    (String (byte_of 0xD9) (String (byte_of 0xA3) EmptyString))
  = Ok [num (String (byte_of 0xD9) (String (byte_of 0xA3) EmptyString))].
Proof. vm_compute. reflexivity. Qed.

(** U+00A0, NO-BREAK SPACE, written C2 A0, and U+3000, IDEOGRAPHIC SPACE,
    written E3 80 80, separate tokens as a blank does. *)
Example tokenize_unicode_space :
  tokenize Digit15 White_Space15
    (String "1" (String (byte_of 0xC2) (String (byte_of 0xA0)
      (String "+" (String (byte_of 0xE3) (String (byte_of 0x80)
        (String (byte_of 0x80) "1")))))))
  = Ok [num "1"; op "+"; num "1"].
Proof. vm_compute. reflexivity. Qed.

(** * The further properties at work *)

Lemma tokenize_token_shapes_witness :
  tokenize Digit15 White_Space15 "2+(3)"
  = Ok [num "2"; op "+"; lparen; num "3"; rparen]
  /\ Forall (tokenized_token Digit15) [num "2"; op "+"; lparen; num "3"; rparen]
  /\ Forall (fun t => known_type t = true /\ known_operator t)
            [num "2"; op "+"; lparen; num "3"; rparen].
Proof.
  assert (H : tokenize Digit15 White_Space15 "2+(3)"
              = Ok [num "2"; op "+"; lparen; num "3"; rparen])
    by (vm_compute; reflexivity).
  split; [exact H|].
  exact (tokenize_token_shapes Digit15 White_Space15 _ _ H).
Defined.

Lemma tokenize_keeps_text_witness :
  tokenize Digit15 White_Space15 " 1 + 2 " = Ok [num "1"; op "+"; num "2"]
  /\ token_values [num "1"; op "+"; num "2"]
     = encode_runes (filter (token_rune Digit15) (range_runes " 1 + 2 ")).
Proof.
  assert (H : tokenize Digit15 White_Space15 " 1 + 2 "
              = Ok [num "1"; op "+"; num "2"])
    by (vm_compute; reflexivity).
  split; [exact H|].
  exact (tokenize_keeps_text Digit15 White_Space15 _ _ H).
Defined.

Lemma tokenize_splits_witness :
  range_runes "12+3" = range_runes "12" ++ rune_of "+" :: range_runes "3"
  /\ punctuation_token Digit15 (rune_of "+") = Some (op "+")
  /\ tokenize Digit15 White_Space15 "12+3"
     = (tl <- tokenize Digit15 White_Space15 "12" ;;
        tr <- tokenize Digit15 White_Space15 "3" ;;
        Ok (tl ++ op "+" :: tr)).
Proof.
  assert (H : range_runes "12+3"
              = range_runes "12" ++ rune_of "+" :: range_runes "3")
    by (vm_compute; reflexivity).
  split; [exact H|]. split; [reflexivity|].
  exact (proj1 (tokenize_splits Digit15 White_Space15 "12+3" "12" "3"
                  (rune_of "+") H) (op "+") eq_refl).
Defined.

Lemma blank_input_witness :
  forallb (blank_rune Digit15 White_Space15) (range_runes "  ") = true
  /\ tokenize Digit15 White_Space15 "  " = Ok []
  /\ calculate Digit15 White_Space15 ParseOther_refuse "  "
     = Err ErrInvalidExpression.
Proof.
  assert (H : forallb (blank_rune Digit15 White_Space15) (range_runes "  ") = true)
    by (vm_compute; reflexivity).
  split; [exact H|].
  exact (blank_input Digit15 White_Space15 ParseOther_refuse "  " H).
Defined.

Lemma tokenize_reads_written_witness :
  Forall written_token [num "2"; op "+"; num "3.5"]
  /\ tokenize Digit15 White_Space15 (write_tokens [num "2"; op "+"; num "3.5"])
     = Ok [num "2"; op "+"; num "3.5"].
Proof.
  assert (H : Forall written_token [num "2"; op "+"; num "3.5"]).
  { apply Forall_cons; [left; repeat split; reflexivity|].
    apply Forall_cons; [right; left; split; [reflexivity|simpl; auto]|].
    apply Forall_cons; [left; repeat split; reflexivity|].
    apply Forall_nil. }
  split; [exact H|].
  exact (tokenize_reads_written Digit15 White_Space15 _ H).
Defined.

Lemma calculate_literal_witness :
  0 < len "1.2.3"
  /\ is_decimal_text "1.2.3" = true
  /\ tokenize Digit15 White_Space15 "1.2.3" = Ok [num "1.2.3"]
  /\ calculate Digit15 White_Space15 ParseOther_refuse "1.2.3"
     = ParseDecimal "1.2.3".
Proof.
  assert (Hlen : 0 < len "1.2.3") by reflexivity.
  split; [exact Hlen|]. split; [reflexivity|].
  exact (calculate_literal Digit15 White_Space15 ParseOther_refuse "1.2.3"
           Hlen eq_refl).
Defined.

Lemma toPostfix_reorders_witness :
  toPostfix [lparen; num "1"; op "+"; num "2"; rparen; op "*"; num "3"]
  = Ok [num "1"; num "2"; op "+"; num "3"; op "*"]
  /\ Permutation
       [num "1"; num "2"; op "+"; num "3"; op "*"]
       (filter number_or_operator
               [lparen; num "1"; op "+"; num "2"; rparen; op "*"; num "3"])
  /\ filter is_number [num "1"; num "2"; op "+"; num "3"; op "*"]
     = filter is_number
              [lparen; num "1"; op "+"; num "2"; rparen; op "*"; num "3"]
  /\ List.length [num "1"; num "2"; op "+"; num "3"; op "*"]
     = List.length
         (filter number_or_operator
                 [lparen; num "1"; op "+"; num "2"; rparen; op "*"; num "3"]).
Proof.
  assert (H : toPostfix [lparen; num "1"; op "+"; num "2"; rparen; op "*"; num "3"]
              = Ok [num "1"; num "2"; op "+"; num "3"; op "*"]) by reflexivity.
  split; [exact H|].
  exact (toPostfix_reorders _ _ H).
Defined.

Lemma evaluatePostfix_operand_count_witness :
  Forall known_operator [num "1"; num "2"; op "+"]
  /\ evaluatePostfix ParseOther_refuse [num "1"; num "2"; op "+"] = Ok (f64_of_Z 3)
  /\ List.length (filter is_number [num "1"; num "2"; op "+"])
     = S (List.length (filter is_operator [num "1"; num "2"; op "+"])).
Proof.
  assert (Hk : Forall known_operator [num "1"; num "2"; op "+"]).
  { apply Forall_cons; [intros H; discriminate H|].
    apply Forall_cons; [intros H; discriminate H|].
    apply Forall_cons; [intros _; simpl; auto|]. apply Forall_nil. }
  assert (H : evaluatePostfix ParseOther_refuse [num "1"; num "2"; op "+"]
              = Ok (f64_of_Z 3)) by (vm_compute; reflexivity).
  split; [exact Hk|]. split; [exact H|].
  exact (evaluatePostfix_operand_count ParseOther_refuse _ _ Hk H).
Defined.

Lemma sample_sum_decimal : decimal_numbers sample_sum.
Proof.
  intros text Hin. simpl in Hin.
  repeat (destruct Hin as [Hin|Hin];
          [try discriminate Hin; inversion Hin; split; reflexivity|]).
  destruct Hin.
Defined.

Lemma sample_quotient_decimal : decimal_numbers sample_quotient.
Proof.
  intros text Hin. simpl in Hin.
  repeat (destruct Hin as [Hin|Hin];
          [try discriminate Hin; inversion Hin; split; reflexivity|]).
  destruct Hin.
Defined.

Lemma calculate_correct_witness :
  decimal_numbers sample_sum
  /\ write_tokens (infix_expr sample_sum) = "2 + 3 * 4 "
  /\ eval_expr ParseOther_refuse sample_sum = Ok (f64_of_Z 14)
  /\ calculate Digit15 White_Space15 ParseOther_refuse
       (write_tokens (infix_expr sample_sum))
     = eval_expr ParseOther_refuse sample_sum.
Proof.
  split; [exact sample_sum_decimal|]. split; [reflexivity|].
  split; [vm_compute; reflexivity|].
  exact (proj2 (calculate_correct Digit15 White_Space15 ParseOther_refuse
                  sample_sum) sample_sum_decimal).
Defined.

Lemma calculate_expression_errors_witness :
  decimal_numbers sample_quotient
  /\ calculate Digit15 White_Space15 ParseOther_refuse
       (write_tokens (infix_expr sample_quotient))
     = Err ErrDivisionByZero
  /\ (ErrDivisionByZero = ErrDivisionByZero
      \/ exists text k, In (num text) (infix_expr sample_quotient)
                        /\ ErrDivisionByZero = ErrNumError text k).
Proof.
  assert (H : calculate Digit15 White_Space15 ParseOther_refuse
                (write_tokens (infix_expr sample_quotient))
              = Err ErrDivisionByZero) by (vm_compute; reflexivity).
  split; [exact sample_quotient_decimal|]. split; [exact H|].
  exact (calculate_expression_errors Digit15 White_Space15 ParseOther_refuse
           sample_quotient ErrDivisionByZero sample_quotient_decimal H).
Defined.

Lemma calculate_success_shape_witness :
  calculate Digit15 White_Space15 ParseOther_refuse "(2 + 3) * 4"
  = Ok (f64_of_Z 20)
  /\ exists tokens,
       tokenize Digit15 White_Space15 "(2 + 3) * 4" = Ok tokens
       /\ balanced tokens = true
       /\ List.length (filter is_number tokens)
          = S (List.length (filter is_operator tokens)).
Proof.
  assert (H : calculate Digit15 White_Space15 ParseOther_refuse "(2 + 3) * 4"
              = Ok (f64_of_Z 20)) by (vm_compute; reflexivity).
  split; [exact H|].
  exact (calculate_success_shape Digit15 White_Space15 ParseOther_refuse _ _ H).
Defined.

Lemma calculate_errors_witness :
  forallb (fun r => r <=? MaxLatin1) (range_runes "1 +") = true
  /\ calculate Digit15 White_Space15 ParseOther_refuse "1 +"
     = Err (ErrNotEnoughOperands "+")
  /\ ((exists c, In c (range_runes "1 +")
                 /\ valid_rune Digit15 White_Space15 c = false
                 /\ ErrNotEnoughOperands "+" = ErrInvalidCharacter c)
      \/ ErrNotEnoughOperands "+" = ErrMismatchedParentheses
      \/ (exists text k, ErrNotEnoughOperands "+" = ErrNumError text k)
      \/ (exists o, In o ["+"; "-"; "*"; "/"]
                    /\ ErrNotEnoughOperands "+" = ErrNotEnoughOperands o)
      \/ ErrNotEnoughOperands "+" = ErrDivisionByZero
      \/ ErrNotEnoughOperands "+" = ErrInvalidExpression).
Proof.
  assert (Hl : forallb (fun r => r <=? MaxLatin1) (range_runes "1 +") = true)
    by (vm_compute; reflexivity).
  assert (H : calculate Digit15 White_Space15 ParseOther_refuse "1 +"
              = Err (ErrNotEnoughOperands "+")) by (vm_compute; reflexivity).
  split; [exact Hl|]. split; [exact H|].
  exact (calculate_errors Digit15 White_Space15 ParseOther_refuse "1 +" _ Hl H).
Defined.

Lemma calculate_error_priority_witness :
  tokenize Digit15 White_Space15 "1 / 0 )"
  = Ok [num "1"; op "/"; num "0"; rparen]
  /\ balanced [num "1"; op "/"; num "0"; rparen] = false
  /\ calculate Digit15 White_Space15 ParseOther_refuse "1 / 0 )"
     = Err ErrMismatchedParentheses.
Proof.
  assert (H : tokenize Digit15 White_Space15 "1 / 0 )"
              = Ok [num "1"; op "/"; num "0"; rparen])
    by (vm_compute; reflexivity).
  split; [exact H|]. split; [reflexivity|].
  exact (proj2 (calculate_error_priority Digit15 White_Space15 ParseOther_refuse
                  "1 / 0 )") _ H eq_refl).
Defined.

Lemma calculate_precedence_witness :
  precedence "+" <= precedence "*"
  /\ toPostfix [num "2"; op "*"; num "3"; op "+"; num "4"]
     = Ok [num "2"; num "3"; op "*"; num "4"; op "+"]
  /\ tokenize Digit15 White_Space15 "2 * 3 + 4" = Ok (infix_expr sample_product_sum)
  /\ calculate Digit15 White_Space15 ParseOther_refuse "2 * 3 + 4"
     = eval_expr ParseOther_refuse sample_product_sum
  /\ eval_expr ParseOther_refuse sample_product_sum = Ok (f64_of_Z 10).
Proof.
  assert (Hp : precedence "+" <= precedence "*") by discriminate.
  assert (Ht : tokenize Digit15 White_Space15 "2 * 3 + 4"
               = Ok (infix_expr sample_product_sum)) by (vm_compute; reflexivity).
  destruct (calculate_precedence Digit15 White_Space15 ParseOther_refuse)
    as (_ & _ & _ & _ & _ & _ & _ & _ & _ & _ & _ & _ & Hpop & _ & _ & _ & Hcalc).
  split; [exact Hp|].
  split; [exact (Hpop "2" "3" "4" "*" "+" Hp)|].
  split; [exact Ht|].
  split; [exact (Hcalc sample_product_sum "2 * 3 + 4" Ht)|].
  vm_compute. reflexivity.
Defined.

(** Two runs of ["2 + 3 * 4"]: the second holds the map in the reverse order
    and has an empty table of digits beyond Latin-1. *)
Lemma calculate_deterministic_witness :
  Permutation precedence_map precedence_map
  /\ Permutation (rev precedence_map) precedence_map
  /\ (forall r, In r (range_runes "2 + 3 * 4") ->
                Digit15 r = (fun _ => false) r /\ White_Space15 r = White_Space15 r)
  /\ calculate_in Digit15 White_Space15 ParseOther_refuse precedence_map "2 + 3 * 4"
     = Ok (f64_of_Z 14)
  /\ calculate_in (fun _ => false) White_Space15 ParseOther_refuse
       (rev precedence_map) "2 + 3 * 4"
     = Ok (f64_of_Z 14)
  /\ (Ok (f64_of_Z 14) = Ok (f64_of_Z 14)
      /\ Ok (f64_of_Z 14)
         = calculate Digit15 White_Space15 ParseOther_refuse "2 + 3 * 4").
Proof.
  assert (Hm1 : Permutation precedence_map precedence_map)
    by apply Permutation_refl.
  assert (Hm2 : Permutation (rev precedence_map) precedence_map)
    by (apply Permutation_sym, Permutation_rev).
  assert (Hr : forall r, In r (range_runes "2 + 3 * 4") ->
                         Digit15 r = (fun _ => false) r
                         /\ White_Space15 r = White_Space15 r).
  { intros r Hin. split; [|reflexivity]. simpl in Hin.
    repeat (destruct Hin as [<-|Hin]; [reflexivity|]). destruct Hin. }
  assert (H1 : calculate_in Digit15 White_Space15 ParseOther_refuse
                 precedence_map "2 + 3 * 4" = Ok (f64_of_Z 14))
    by (vm_compute; reflexivity).
  assert (H2 : calculate_in (fun _ => false) White_Space15 ParseOther_refuse
                 (rev precedence_map) "2 + 3 * 4" = Ok (f64_of_Z 14))
    by (vm_compute; reflexivity).
  split; [exact Hm1|]. split; [exact Hm2|]. split; [exact Hr|].
  split; [exact H1|]. split; [exact H2|].
  exact (calculate_deterministic Digit15 White_Space15 (fun _ => false) White_Space15
           ParseOther_refuse ParseOther_refuse precedence_map (rev precedence_map)
           "2 + 3 * 4" _ _ Hm1 Hm2 Hr (fun s => eq_refl) H1 H2).
Defined.
